(** * SE weekly metrics API (app.py): a shallow embedding and its properties

    The service of [app.py] asks an issue tracker for the tickets of the
    previous calendar week, merges and classifies them and serves one JSON
    report.  This development embeds the aggregation code: the week window,
    the paginated fetch, the merge of the two resolved-ticket queries, the
    changelog scan, the incident and transfer classification and the
    statistics of the report.

    Conventions of the embedding.
    - A JSON object of the tracker is a record whose optional members are
      [option]s: [None] is an absent member, for which the code's
      [.get(k, default)] yields the default.
    - Python [str] values are [string]s of 8-bit characters, the UTF-8 bytes
      of the text; [str.lower] is the ASCII lower-casing and [\d] the ASCII
      digits.  Python's [\d] also takes the other Unicode decimal digits,
      whose encodings start with a byte above 127: what is proved of the key
      search is stated for the texts where no such byte follows a key
      ([Text.plain_after_keys]).
    - The answers of the tracker are well formed: every issue has its [key],
      and [requests.get] and [response.json()] return.  The exceptions that
      the code raises otherwise, which end in the error document, are not
      embedded.
    - Python floats that hold durations are exact rationals ([Q]).
    - The tracker is a script of responses consumed in order, together with
      the log of the requests sent: the only effect of the code.
    - Of the report, the counts, the average, the speed buckets, the week
      range and the transfer details are embedded; the label tally and the
      status analysis, which feed no other member, are not. *)

From Stdlib Require Import ZArith QArith Qround Lqa String Ascii List Lia Bool.
From stdpp Require Import base list strings gmap.

Local Open Scope Z_scope.

(** ** Text: the [str] operations the code uses *)

Module Text.

(** [c.lower()] on one ASCII character. *)
Definition lower_char (c : ascii) : ascii :=
  let n := N_of_ascii c in
  if ((65 <=? n) && (n <=? 90))%N then ascii_of_N (n + 32) else c.

(** [s.lower()] *)
Fixpoint lower (s : string) : string :=
  match s with
  | EmptyString => EmptyString
  | String c s' => String (lower_char c) (lower s')
  end.

(** [s.startswith(p)] *)
Fixpoint startswith (p s : string) : bool :=
  match p, s with
  | EmptyString, _ => true
  | String _ _, EmptyString => false
  | String a p', String b s' => if Ascii.eqb a b then startswith p' s' else false
  end.

(** [sub in s]: some suffix of [s] starts with [sub]. *)
Fixpoint contains (sub s : string) : bool :=
  startswith sub s ||
  match s with
  | EmptyString => false
  | String _ s' => contains sub s'
  end.

(** [s.replace('Z', '+00:00')] *)
Fixpoint replace_Z (s : string) : string :=
  match s with
  | EmptyString => EmptyString
  | String c s' =>
      if Ascii.eqb c "Z" then "+00:00" +:+ replace_Z s'
      else String c (replace_Z s')
  end.

(** Python truthiness of a [str]: non-empty. *)
Definition truthy (s : string) : bool :=
  match s with EmptyString => false | String _ _ => true end.

(** The character class [\d]. *)
Definition is_digit (c : ascii) : bool :=
  let n := N_of_ascii c in ((48 <=? n) && (n <=? 57))%N.

(** The greedy [\d*] at the head of [s]. *)
Fixpoint take_digits (s : string) : string :=
  match s with
  | EmptyString => EmptyString
  | String c s' => if is_digit c then String c (take_digits s') else EmptyString
  end.

(** What follows the literal [p] at the head of [s], if [s] starts with it. *)
Fixpoint strip_prefix (p s : string) : option string :=
  match p, s with
  | EmptyString, _ => Some s
  | String _ _, EmptyString => None
  | String a p', String b s' => if Ascii.eqb a b then strip_prefix p' s' else None
  end.

(** [re.match(r'SE-\d+', s)]: the pattern anchored at the head of [s]; the
    literal [SE-], then one digit or more, as many as there are. *)
Definition match_se_key (s : string) : option string :=
  match strip_prefix "SE-" s with
  | Some rest =>
      match take_digits rest with
      | EmptyString => None
      | ds => Some ("SE-" +:+ ds)
      end
  | None => None
  end.

(** [re.search(r'SE-\d+', s)], mapped to [match.group(0)]: the match at the
    leftmost position where the pattern matches. *)
Fixpoint search_se_key (s : string) : option string :=
  match match_se_key s with
  | Some m => Some m
  | None =>
      match s with
      | EmptyString => None
      | String _ s' => search_se_key s'
      end
  end.

(** Every character of [s] is a digit. *)
Fixpoint all_digits (s : string) : bool :=
  match s with
  | EmptyString => true
  | String c s' => is_digit c && all_digits s'
  end.

(** No digit at the head of [s]. *)
Definition no_leading_digit (s : string) : Prop :=
  match s with
  | EmptyString => True
  | String c _ => is_digit c = false
  end.

(** [m] is an occurrence of the pattern [SE-\d+] in [s] after the prefix
    [pre], with its run of digits taken as far as it goes. *)
Definition se_key_at (pre m s : string) : Prop :=
  exists ds post,
    s = pre +:+ m +:+ post /\ m = "SE-" +:+ ds /\ ds <> EmptyString /\
    all_digits ds = true /\ no_leading_digit post.

(** The pattern matches somewhere in [s] at an offset below [n]. *)
Definition se_key_before (n : nat) (s : string) : Prop :=
  exists pre d post,
    (String.length pre < n)%nat /\ is_digit d = true /\
    s = pre +:+ "SE-" +:+ String d post.




End Text.

(** ** Calendar: the part of [datetime] the code uses *)

Module Calendar.

(** A naive [datetime]: the proleptic Gregorian ordinal of its date
    ([date.toordinal()], day 1 is 0001-01-01) and the microseconds elapsed in
    that day. *)
Record datetime := { ordinal : Z; micros : Z }.

Definition MINORD : Z := 1.
Definition MAXORD : Z := 3652059.  (* 9999-12-31 *)

(** [d.weekday()]: Monday is 0, Sunday is 6. *)
Definition weekday (d : datetime) : Z := (ordinal d + 6) mod 7.

(** [d + timedelta(days=k)]; [None] is Python's [OverflowError]. *)
Definition plus_days (d : datetime) (k : Z) : option datetime :=
  let o := ordinal d + k in
  if (MINORD <=? o) && (o <=? MAXORD)
  then Some {| ordinal := o; micros := micros d |}
  else None.

(** [d - timedelta(days=k)] *)
Definition minus_days (d : datetime) (k : Z) : option datetime :=
  plus_days d (- k).

Definition days_before_month (m : Z) : Z :=
  match m with
  | 1 => 0 | 2 => 31 | 3 => 59 | 4 => 90 | 5 => 120 | 6 => 151
  | 7 => 181 | 8 => 212 | 9 => 243 | 10 => 273 | 11 => 304 | _ => 334
  end.

Definition days_in_month (m : Z) : Z :=
  match m with
  | 2 => 28
  | 4 | 6 | 9 | 11 => 30
  | _ => 31
  end.

(** [datetime._ord2ymd]: ordinal to (year, month, day). *)
Definition ord2ymd (n0 : Z) : Z * Z * Z :=
  let n := n0 - 1 in
  let n400 := n / 146097 in let n := n mod 146097 in
  let n100 := n / 36524 in let n := n mod 36524 in
  let n4 := n / 1461 in let n := n mod 1461 in
  let n1 := n / 365 in let n := n mod 365 in
  let year := n400 * 400 + 1 + n100 * 100 + n4 * 4 + n1 in
  if (n1 =? 4) || (n100 =? 4) then (year - 1, 12, 31)
  else
    let leapyear := (n1 =? 3) && (negb (n4 =? 24) || (n100 =? 3)) in
    let month := Z.shiftr (n + 50) 5 in
    let preceding :=
      days_before_month month + (if (2 <? month) && leapyear then 1 else 0) in
    if n <? preceding then
      let month' := month - 1 in
      let preceding' :=
        preceding -
        (days_in_month month' + (if (month' =? 2) && leapyear then 1 else 0)) in
      (year, month', n - preceding' + 1)
    else (year, month, n - preceding + 1).

Definition digit (n : Z) : ascii := ascii_of_N (48 + Z.to_N (n mod 10)).

Definition pad2 (n : Z) : string :=
  String (digit (n / 10)) (String (digit n) EmptyString).

Definition pad4 (n : Z) : string :=
  String (digit (n / 1000)) (String (digit (n / 100)) (pad2 n)).

(** [d.strftime('%Y-%m-%d')] *)
Definition strftime_ymd (d : datetime) : string :=
  let '(y, m, dd) := ord2ymd (ordinal d) in
  pad4 y +:+ "-" +:+ pad2 m +:+ "-" +:+ pad2 dd.

(** [s] between double quotes, as the f-strings of the queries write it. *)
Definition quoted (s : string) : string :=
  String (ascii_of_N 34) (s +:+ String (ascii_of_N 34) EmptyString).

(** The report window of [/metrics]:
<<
    this_monday = today - timedelta(days=today.weekday())
    week_start = this_monday - timedelta(days=7)
    week_end = week_start + timedelta(days=6)
>> *)
Definition metrics_window (today : datetime) : option (datetime * datetime) :=
  this_monday ← minus_days today (weekday today);
  week_start ← minus_days this_monday 7;
  week_end ← plus_days week_start 6;
  Some (week_start, week_end).

(** The window of [/test-dates]:
<<
    week_start = today - timedelta(days=today.weekday())
    week_end = week_start + timedelta(days=6)
>> *)
Definition test_dates_window (today : datetime) : option (datetime * datetime) :=
  week_start ← minus_days today (weekday today);
  week_end ← plus_days week_start 6;
  Some (week_start, week_end).

(** The members of the [/test-dates] answer that depend on the clock. *)
Record test_dates_response := {
  current_system_date : string;
  calculated_week_start : string;
  calculated_week_end : string;
  jql_current : string
}.

(** [test_dates()], given the clock's [datetime.now()]; [None] when the date
    arithmetic overflows. *)
Definition test_dates (today : datetime) : option test_dates_response :=
  '(week_start, week_end) ← test_dates_window today;
  Some {| current_system_date := strftime_ymd today;
          calculated_week_start := strftime_ymd week_start;
          calculated_week_end := strftime_ymd week_end;
          jql_current :=
            "project = SE AND created >= " +:+ quoted (strftime_ymd week_start) +:+
            " AND created <= " +:+ quoted (strftime_ymd week_end) |}.

End Calendar.

(** ** The tracker's JSON, typed *)

Module Jira.

(** One entry of [history['items']]. *)
Record item := { item_field : option string; item_toString : option string }.

(** One entry of [changelog['histories']]. *)
Record history := {
  history_items : option (list item);
  history_created : option string
}.

Record changelog := { histories : option (list history) }.

(** The objects under [fields['status']] and [fields['priority']]. *)
Record named := { name : option string }.

(** [issue['fields']].  [description] holds [str(description)] of a present,
    truthy description. *)
Record fields := {
  summary : option string;
  status : option named;
  created : option string;
  resolved : option string;
  updated : option string;
  labels : option (list string);
  priority : option named;
  description : option string
}.

Record issue := {
  key : string;
  issue_fields : option fields;
  issue_changelog : option changelog
}.

(** The [{}] that [issue.get('fields', {})] falls back to. *)
Definition no_fields : fields :=
  {| summary := None; status := None; created := None; resolved := None;
     updated := None; labels := None; priority := None; description := None |}.

(** One answer of the search endpoint: [response.status_code] and the members
    of [response.json()] the code reads. *)
Record response := {
  status_code : Z;
  resp_issues : option (list issue);
  resp_total : option Z
}.

(** The [params] of one [requests.get]. *)
Record request := {
  req_jql : string;
  req_fields : string;
  req_maxResults : Z;
  req_startAt : Z;
  req_expand : option string
}.

(** The tracker as the code sees it: the answers still to come, and the
    requests sent so far. *)
Record world := { script : list response; sent : list request }.

End Jira.

Import Text Calendar Jira.

(** ** Paginated fetch *)

Module Fetch.

Section Loop.
Variables (jql fields : string) (expand : option string) (max_results : Z).

(** The [params] dict of the request at offset [start_at]. *)
Definition params (start_at : Z) : request :=
  {| req_jql := jql;
     req_fields := fields;
     req_maxResults := Z.min max_results 100;
     req_startAt := start_at;
     req_expand :=
       match expand with
       | Some e => if truthy e then Some e else None
       | None => None
       end |}.

(** The [while True] loop of [fetch_jira_data], by recursion on the answers
    still to come; [None] when the loop asks for an answer the script does
    not hold. *)
Fixpoint fetch_loop (answers : list response) (log : list request)
    (start_at : Z) (all_issues : list issue) : option (list issue * world) :=
  match answers with
  | [] => None
  | r :: answers' =>
      let log' := log ++ [params start_at] in
      if negb (status_code r =? 200)
      then Some (all_issues, {| script := answers'; sent := log' |})
      else
        let issues := default [] (resp_issues r) in
        let all_issues' := all_issues ++ issues in
        let total := default 0 (resp_total r) in
        if (Z.of_nat (length issues) <? max_results)
           || (start_at + max_results >=? total)
        then Some (all_issues', {| script := answers'; sent := log' |})
        else fetch_loop answers' log' (start_at + max_results) all_issues'
  end.
End Loop.

(** [fetch_jira_data(jql, auth, headers, fields, expand, max_results)] *)
Definition fetch_jira_data (jql fields : string) (expand : option string)
    (max_results : Z) (w : world) : option (list issue * world) :=
  fetch_loop jql fields expand max_results (script w) (sent w) 0 [].

(** The default of the [fields] parameter. *)
Definition default_fields : string :=
  "key,summary,status,created,updated,resolved,labels,priority".

(** A page that makes the loop go on when requested at offset [start_at]:
    success, a full page, and more tickets reported than seen. *)
Definition continues (max_results start_at : Z) (r : response) : bool :=
  (status_code r =? 200)
  && negb (Z.of_nat (length (default [] (resp_issues r))) <? max_results)
  && negb (start_at + max_results >=? default 0 (resp_total r)).

(** Every page of [pages] makes the loop go on, the first one being requested
    at offset [start_at]. *)
Fixpoint all_continue (max_results start_at : Z) (pages : list response) : bool :=
  match pages with
  | [] => true
  | r :: pages' =>
      continues max_results start_at r
      && all_continue max_results (start_at + max_results) pages'
  end.

(** The offsets of [n] requests in a row, the first at [start_at]. *)
Fixpoint offsets (max_results start_at : Z) (n : nat) : list Z :=
  match n with
  | O => []
  | S n' => start_at :: offsets max_results (start_at + max_results) n'
  end.

(** The issues of a run of pages, in order. *)
Definition issues_of (pages : list response) : list issue :=
  concat (map (fun r => default [] (resp_issues r)) pages).

End Fetch.

(** ** The aggregation of [/metrics] *)

Module Metrics.
Import Fetch.

(** *** Resolution date from the changelog *)

Definition terminal_states : list string :=
  ["Done"; "Resolved"; "Closed"; "Deployed/Done"; "Complete"].

(** [x in xs] for a list of strings. *)
Definition str_in (x : string) (xs : list string) : bool :=
  existsb (String.eqb x) xs.

(** The test of the inner loop of [find_resolution_date_in_changelog]:
    [item.get('field') == 'status'] and [item.get('toString', '')] is one of
    the terminal states. *)
Definition item_resolves (it : item) : bool :=
  match item_field it with
  | Some f =>
      String.eqb f "status"
      && str_in (default "" (item_toString it)) terminal_states
  | None => false
  end.

(** The inner [for item in items] loop of one history: it returns
    [history.get('created', '')] at the first resolving item. *)
Fixpoint scan_items (h : history) (its : list item) : option string :=
  match its with
  | [] => None
  | it :: its' =>
      if item_resolves it then Some (default "" (history_created h))
      else scan_items h its'
  end.

(** The outer [for history in histories] loop. *)
Fixpoint scan_histories (hs : list history) : option string :=
  match hs with
  | [] => None
  | h :: hs' =>
      match scan_items h (default [] (history_items h)) with
      | Some d => Some d
      | None => scan_histories hs'
      end
  end.


Definition histories_of (i : issue) : list history :=
  match issue_changelog i with
  | Some c => default [] (histories c)
  | None => []
  end.

(** [find_resolution_date_in_changelog(issue)] *)
Definition find_resolution_date_in_changelog (i : issue) : option string :=
  scan_histories (histories_of i).

(** *** Resolution time *)

(** What [datetime.fromisoformat] yields: microseconds from the epoch (UTC
    for an aware value, wall clock for a naive one) and whether the value
    carries an offset. *)
Record instant := { epoch_us : Z; aware : bool }.

(** [(resolved_dt - created_dt)]; [None] is the [TypeError] of mixing naive
    and aware values. *)
Definition delta_us (resolved_dt created_dt : instant) : option Z :=
  if Bool.eqb (aware resolved_dt) (aware created_dt)
  then Some (epoch_us resolved_dt - epoch_us created_dt)
  else None.

(** [delta.total_seconds() / 3600 / 24] *)
Definition us_to_days (us : Z) : Q :=
  (inject_Z us / inject_Z 1000000 / inject_Z 3600 / inject_Z 24)%Q.

(** What [new_tickets], [resolved_tickets] and [transfer_tickets] hold. *)
Record new_ticket := {
  nt_key : string;
  nt_summary : string;
  nt_status : string;
  nt_created : string;
  nt_labels : list string;
  nt_priority : string
}.

Record resolved_ticket := {
  rt_key : string;
  rt_summary : string;
  rt_status : string;
  rt_created : string;
  rt_resolved : string;
  resolution_days : Q
}.

Record transfer_ticket := {
  tt_key : string;
  tt_team : string;
  tt_summary : string;
  tt_status : string;
  tt_created : string;
  original_se_key : string
}.

Definition fields_of (i : issue) : fields := default no_fields (issue_fields i).

(** [fields.get('status', {}).get('name', '')] *)
Definition status_name (f : fields) : string :=
  match status f with
  | Some s => default "" (name s)
  | None => ""
  end.

Section Timestamps.
(** [datetime.fromisoformat]; [None] when it raises. *)
Variable fromisoformat : string -> option instant.

(** The body of the two [try] blocks; [None] when anything in it raises. *)
Definition try_days (created resolved : string) : option Q :=
  created_dt ← fromisoformat (replace_Z created);
  resolved_dt ← fromisoformat (replace_Z resolved);
  us ← delta_us resolved_dt created_dt;
  Some (us_to_days us).

(** The resolution time of one merged resolved issue. *)
Definition resolution_days_of (i : issue) : Q :=
  let f := fields_of i in
  let created := default "" (created f) in
  let resolved := default "" (resolved f) in
  if truthy created && truthy resolved then
    default 0%Q (try_days created resolved)
  else if truthy created then
    match find_resolution_date_in_changelog i with
    | Some resolution_date =>
        if truthy resolution_date
        then default 0%Q (try_days created resolution_date)
        else 0%Q
    | None => 0%Q
    end
  else 0%Q.

Definition resolved_ticket_of (i : issue) : resolved_ticket :=
  let f := fields_of i in
  {| rt_key := key i;
     rt_summary := default "" (summary f);
     rt_status := status_name f;
     rt_created := default "" (created f);
     rt_resolved := default "" (resolved f);
     resolution_days := resolution_days_of i |}.
End Timestamps.

(** *** New tickets and incidents *)

Definition new_ticket_of (i : issue) : new_ticket :=
  let f := fields_of i in
  {| nt_key := key i;
     nt_summary := default "" (summary f);
     nt_status := status_name f;
     nt_created := default "" (created f);
     nt_labels := default [] (labels f);
     nt_priority :=
       match priority f with
       | Some p => default "" (name p)
       | None => ""
       end |}.

(** The test under [# Check for incidents]. *)
Definition is_incident (t : new_ticket) : bool :=
  str_in (nt_priority t) ["Highest"; "Critical"]
  || existsb (fun label => contains "incident" (lower label)) (nt_labels t).

(** The [for issue in new_tickets_response] loop, on the pair
    ([new_tickets], [incident_tickets]). *)
Definition add_new_ticket (acc : list new_ticket * list new_ticket) (i : issue)
    : list new_ticket * list new_ticket :=
  let t := new_ticket_of i in
  (acc.1 ++ [t], if is_incident t then acc.2 ++ [t] else acc.2).

Definition process_new_tickets (resp : list issue)
    : list new_ticket * list new_ticket :=
  foldl add_new_ticket ([], []) resp.

(** *** Merge of the resolved-ticket queries *)

(** The body of [for issue in resolved_response], on the pair
    ([all_resolved_keys], [resolved_tickets]). *)
Definition add_resolved (acc : gset string * list issue) (i : issue)
    : gset string * list issue :=
  if decide (key i ∈ acc.1) then acc
  else ({[key i]} ∪ acc.1, acc.2 ++ [i]).

Definition merge_response (acc : gset string * list issue) (resp : list issue)
    : gset string * list issue :=
  foldl add_resolved acc resp.

(** Both answers merged: what [resolved_tickets] holds after the loop over
    the two queries. *)
Definition merge_resolved (resp1 resp2 : list issue) : list issue :=
  (merge_response (merge_response (∅, []) resp1) resp2).2.

(** *** Transfers *)

Definition teams : list string := ["EIM"; "ENGGMNT"; "AM"; "MRKT"].

(** [summary + " " + str(description)] *)
Definition transfer_text (summary description : string) : string :=
  summary +:+ " " +:+ description.

(** ['SE-' in summary or 'SE-' in str(description)] *)
Definition is_se_transfer (summary description : string) : bool :=
  contains "SE-" summary || contains "SE-" description.

(** The value of [original_se_key] after the [if] that classifies the
    ticket. *)
Definition extract_se_key (summary description : string) : string :=
  if is_se_transfer summary description then
    match search_se_key (transfer_text summary description) with
    | Some m => m
    | None => "Unknown"
    end
  else "Unknown".

(** The body of [for issue in transfer_response], on [transfer_tickets]. *)
Definition add_transfer (team : string) (acc : list transfer_ticket) (i : issue)
    : list transfer_ticket :=
  let f := fields_of i in
  let summary := default "" (summary f) in
  let description := default "" (description f) in
  if is_se_transfer summary description then
    if str_in (key i) (map tt_key acc) then acc
    else acc ++ [ {| tt_key := key i;
                     tt_team := team;
                     tt_summary := summary;
                     tt_status := status_name f;
                     tt_created := default "" (created f);
                     original_se_key := extract_se_key summary description |} ]
  else acc.

(** *** Statistics *)

(** [x < y] and [x <= y] on durations. *)
Definition Qltb (x y : Q) : bool := negb (Qle_bool y x).

(** [round(x, 1)]: to the nearest tenth, ties to the even tenth. *)
Definition round1 (x : Q) : Q :=
  let t := (x * inject_Z 10)%Q in
  let f := Qfloor t in
  let r := (t - inject_Z f)%Q in
  let k :=
    if Qltb r (1 # 2) then f
    else if Qltb (1 # 2) r then f + 1
    else if Z.even f then f else f + 1 in
  (inject_Z k / inject_Z 10)%Q.

(** [sum(xs)] *)
Definition Qsum (xs : list Q) : Q := foldl Qplus 0%Q xs.

(** [[t['resolution_days'] for t in resolved if t['resolution_days'] >= 0]] *)
Definition resolution_times (resolved : list resolved_ticket) : list Q :=
  List.filter (fun d => Qle_bool 0 d) (map resolution_days resolved).

(** [round(sum(ts) / len(ts), 1) if ts else 0.0] *)
Definition avg_resolution (ts : list Q) : Q :=
  match ts with
  | [] => 0%Q
  | _ :: _ => round1 (Qsum ts / inject_Z (Z.of_nat (length ts)))
  end.

Record buckets := {
  under_24h : nat;
  b_1_3_days : nat;
  b_3_7_days : nat;
  over_7_days : nat
}.

Definition no_buckets : buckets :=
  {| under_24h := 0; b_1_3_days := 0; b_3_7_days := 0; over_7_days := 0 |}.

(** The body of [for days in resolution_times]. *)
Definition add_to_bucket (b : buckets) (days : Q) : buckets :=
  if Qltb days 1 then
    {| under_24h := S (under_24h b); b_1_3_days := b_1_3_days b;
       b_3_7_days := b_3_7_days b; over_7_days := over_7_days b |}
  else if Qle_bool days 3 then
    {| under_24h := under_24h b; b_1_3_days := S (b_1_3_days b);
       b_3_7_days := b_3_7_days b; over_7_days := over_7_days b |}
  else if Qle_bool days 7 then
    {| under_24h := under_24h b; b_1_3_days := b_1_3_days b;
       b_3_7_days := S (b_3_7_days b); over_7_days := over_7_days b |}
  else
    {| under_24h := under_24h b; b_1_3_days := b_1_3_days b;
       b_3_7_days := b_3_7_days b; over_7_days := S (over_7_days b) |}.

Definition resolution_buckets (ts : list Q) : buckets :=
  foldl add_to_bucket no_buckets ts.

Definition bucket_total (b : buckets) : nat :=
  (under_24h b + b_1_3_days b + b_3_7_days b + over_7_days b)%nat.

(** *** The queries *)

Section Window.
(** [week_start.strftime("%Y-%m-%d")] and [week_end.strftime("%Y-%m-%d")] *)
Variables (ws we : string).

Definition new_tickets_jql : string :=
  "project = SE AND created >= " +:+ quoted ws +:+
  " AND created <= " +:+ quoted we.

Definition resolved_jql1 : string :=
  "project = SE AND resolved >= " +:+ quoted ws +:+
  " AND resolved <= " +:+ quoted we.

Definition resolved_jql2 : string :=
  "project = SE AND status CHANGED TO " +:+ quoted "Done" +:+
  " DURING (" +:+ quoted ws +:+ ", " +:+ quoted we +:+ ")".

Definition active_jql : string :=
  "project = SE AND updated >= " +:+ quoted ws +:+
  " AND updated <= " +:+ quoted we +:+
  " AND status NOT IN (" +:+ quoted "Done" +:+ ", " +:+ quoted "Closed" +:+
  ", " +:+ quoted "Resolved" +:+ ")".

Definition transfer_jql (team : string) : string :=
  "project = " +:+ team +:+ " AND created >= " +:+ quoted ws +:+
  " AND created <= " +:+ quoted we +:+
  " AND (text ~ " +:+ quoted "SE-" +:+ " OR summary ~ " +:+ quoted "SE-" +:+ ")".

(** Every query of [/metrics] over the window. *)
Definition window_queries : list string :=
  [new_tickets_jql; resolved_jql1; resolved_jql2; active_jql]
  ++ map transfer_jql teams.
End Window.

(** *** The request handler *)

(** Code that talks to the tracker: it maps a world to a result and the
    world after it, or to [None] when the script of answers runs out. *)
Definition io (A : Type) : Type := world -> option (A * world).

Definition io_ret {A} (a : A) : io A := fun w => Some (a, w).

Definition io_bind {A B} (c : io A) (k : A -> io B) : io B :=
  fun w => match c w with
           | Some (a, w') => k a w'
           | None => None
           end.

Notation "'do' x <- c ; k" := (io_bind c (fun x => k))
  (at level 10, x name, c at level 100, k at level 200).

(** A [for x in xs] loop whose body talks to the tracker. *)
Fixpoint io_for {A S} (xs : list A) (body : S -> A -> io S) (s : S) : io S :=
  match xs with
  | [] => io_ret s
  | x :: xs' => do s' <- body s x; io_for xs' body s'
  end.


(** The lists of the [metrics] dict that the report is built from. *)
Record storage := {
  new_tickets : list new_ticket;
  incident_tickets : list new_ticket;
  resolved_tickets : list resolved_ticket;
  transfer_tickets : list transfer_ticket
}.

(** The members of the [/metrics] answer that are embedded. *)
Record report := {
  newTicketsCount : nat;
  resolvedTicketsCount : nat;
  averageResolutionDays : Q;
  incidentsCount : nat;
  transfersCount : nat;
  speedBuckets : buckets;
  weekRange : string;
  transfers_details : list transfer_ticket
}.

(** The answer of [/metrics]: the report, or the [except Exception] branch. *)
Inductive metrics_response :=
  | Success (r : report)
  | Failure.

(** The [# CALCULATE METRICS] and [# Build response] parts. *)
Definition build_report (m : storage) (ws we : string) : report :=
  let times := resolution_times (resolved_tickets m) in
  {| newTicketsCount := length (new_tickets m);
     resolvedTicketsCount := length (resolved_tickets m);
     averageResolutionDays := avg_resolution times;
     incidentsCount := length (incident_tickets m);
     transfersCount := length (transfer_tickets m);
     speedBuckets := resolution_buckets times;
     weekRange := ws +:+ " to " +:+ we;
     transfers_details := take 5 (take 6 (transfer_tickets m)) |}.

Section Handler.
Variable fromisoformat : string -> option instant.

(** One round of [for jql in [resolved_jql1, resolved_jql2]]. *)
Definition fetch_resolved (acc : gset string * list issue) (jql : string)
    : io (gset string * list issue) :=
  do resolved_response <-
    fetch_jira_data jql "key,summary,status,created,resolved,updated"
      (Some "changelog") 100;
  io_ret (merge_response acc resolved_response).

(** One round of [for team in teams]. *)
Definition fetch_transfers (ws we : string) (acc : list transfer_ticket)
    (team : string) : io (list transfer_ticket) :=
  do transfer_response <-
    fetch_jira_data (transfer_jql ws we team)
      "key,summary,status,created,updated,description"
      (Some "changelog") 50;
  io_ret (foldl (add_transfer team) acc transfer_response).

(** The fetches of [get_metrics], in the order of the code, for the window
    strings [ws] and [we]. *)
Definition collect (ws we : string) : io storage :=
  do new_tickets_response <-
    fetch_jira_data (new_tickets_jql ws we) default_fields None 100;
  let '(new, incidents) := process_new_tickets new_tickets_response in
  do merged <-
    io_for [resolved_jql1 ws we; resolved_jql2 ws we] fetch_resolved (∅, []);
  do active_response <-
    fetch_jira_data (active_jql ws we) default_fields None 100;
  do transfers <- io_for teams (fetch_transfers ws we) [];
  io_ret {| new_tickets := new;
            incident_tickets := incidents;
            resolved_tickets := map (resolved_ticket_of fromisoformat) merged.2;
            transfer_tickets := transfers |}.

(** [get_metrics()], given the clock's [datetime.now()]. *)
Definition get_metrics (today : datetime) : io metrics_response :=
  match metrics_window today with
  | None => io_ret Failure
  | Some (week_start, week_end) =>
      let ws := strftime_ymd week_start in
      let we := strftime_ymd week_end in
      do m <- collect ws we;
      io_ret (Success (build_report m ws we))
  end.
End Handler.

End Metrics.

(** ** The specification's words *)

Module Spec.
Import Metrics.

(** The four speed buckets and their boundaries. *)
Inductive speed := Under24h | OneToThree | ThreeToSeven | OverSeven.

Definition in_speed (s : speed) (d : Q) : Prop :=
  match s with
  | Under24h => (d < 1)%Q
  | OneToThree => (1 <= d /\ d <= 3)%Q
  | ThreeToSeven => (3 < d /\ d <= 7)%Q
  | OverSeven => (7 < d)%Q
  end.

(** One more ticket in bucket [s]. *)
Definition bump (s : speed) (b : buckets) : buckets :=
  match s with
  | Under24h =>
      {| under_24h := S (under_24h b); b_1_3_days := b_1_3_days b;
         b_3_7_days := b_3_7_days b; over_7_days := over_7_days b |}
  | OneToThree =>
      {| under_24h := under_24h b; b_1_3_days := S (b_1_3_days b);
         b_3_7_days := b_3_7_days b; over_7_days := over_7_days b |}
  | ThreeToSeven =>
      {| under_24h := under_24h b; b_1_3_days := b_1_3_days b;
         b_3_7_days := S (b_3_7_days b); over_7_days := over_7_days b |}
  | OverSeven =>
      {| under_24h := under_24h b; b_1_3_days := b_1_3_days b;
         b_3_7_days := b_3_7_days b; over_7_days := S (over_7_days b) |}
  end.



(** The non-negative durations of a list, in order. *)
Definition non_negative (ds : list Q) : list Q :=
  List.filter (fun d => Qle_bool 0 d) ds.

(** The first issue of [l] with identifier [k]. *)
Definition first_with_key (k : string) (l : list issue) : option issue :=
  List.find (fun i => String.eqb (key i) k) l.

(** The issues of [l] with identifier [k]. *)
Definition with_key (k : string) (l : list issue) : list issue :=
  List.filter (fun i => String.eqb (key i) k) l.

(** What the merge loop maintains, [seen] being the issues met so far: the
    set holds their identifiers, and the list holds for each identifier its
    first issue and no other. *)
Definition merged_so_far (acc : gset string * list issue) (seen : list issue)
    : Prop :=
  (forall k, k ∈ acc.1 <-> In k (map key seen)) /\
  (forall k, with_key k acc.2 =
             match first_with_key k seen with
             | Some i => [i]
             | None => []
             end).






(** [m] is the first match of the origin-project key pattern in [text]. *)
Definition first_se_key (m text : string) : Prop :=
  exists pre, se_key_at pre m text /\ ~ se_key_before (String.length pre) text.

(** The pattern matches nowhere in [text]. *)
Definition no_se_key (text : string) : Prop :=
  forall n, ~ se_key_before n text.

End Spec.

(** ** Sample data *)

Module Examples.
Import Fetch Metrics.

(** Wednesday 2024-09-25, at noon. *)
Definition wednesday : datetime := {| ordinal := 739154; micros := 43200000000 |}.

Definition ticket (k summary_text : string) (f : fields -> fields) : issue :=
  {| key := k;
     issue_fields := Some (f {| summary := Some summary_text; status := None;
                                created := None; resolved := None;
                                updated := None; labels := None;
                                priority := None; description := None |});
     issue_changelog := None |}.

Definition with_priority (p : string) (f : fields) : fields :=
  {| summary := summary f; status := status f; created := created f;
     resolved := resolved f; updated := updated f; labels := labels f;
     priority := Some {| name := Some p |}; description := description f |}.

Definition with_created (c : string) (f : fields) : fields :=
  {| summary := summary f; status := status f; created := Some c;
     resolved := resolved f; updated := updated f; labels := labels f;
     priority := priority f; description := description f |}.

Definition with_resolved (r : string) (f : fields) : fields :=
  {| summary := summary f; status := status f; created := created f;
     resolved := Some r; updated := updated f; labels := labels f;
     priority := priority f; description := description f |}.

Definition with_changelog (hs : list history) (i : issue) : issue :=
  {| key := key i; issue_fields := issue_fields i;
     issue_changelog := Some {| histories := Some hs |} |}.


(** The answers of the two resolved-ticket queries: [SE-2] is in both. *)
Definition by_resolved_field : list issue :=
  [ticket "SE-1" "printer" id; ticket "SE-2" "badge, as resolved" id].

Definition by_status_change : list issue :=
  [ticket "SE-2" "badge, as done" id; ticket "SE-3" "laptop" id].

(** A stand-in for [datetime.fromisoformat] that knows three timestamps. *)
Definition sample_clock (s : string) : option instant :=
  if String.eqb s "2024-09-16T09:00:00+00:00"
  then Some {| epoch_us := 1726477200000000; aware := true |}
  else if String.eqb s "2024-09-18T09:00:00+00:00"
  then Some {| epoch_us := 1726650000000000; aware := true |}
  else if String.eqb s "2024-09-14T09:00:00+00:00"
  then Some {| epoch_us := 1726304400000000; aware := true |}
  else None.

Definition status_change (to : string) : item :=
  {| item_field := Some "status"; item_toString := Some to |}.

(** A ticket without a resolved field whose history moves to In Progress and
    then to Done. *)
Definition issue_done_in_history : issue :=
  with_changelog
    [ {| history_items := Some [status_change "In Progress"];
         history_created := Some "2024-09-16T09:00:00Z" |};
      {| history_items :=
           Some [ {| item_field := Some "assignee"; item_toString := Some "Done" |};
                  status_change "Done" ];
         history_created := Some "2024-09-18T09:00:00Z" |};
      {| history_items := Some [status_change "Closed"];
         history_created := Some "2024-09-19T09:00:00Z" |} ]
    (ticket "SE-4" "vpn" (with_created "2024-09-16T09:00:00Z")).

(** A page of [n] copies of a ticket, with the reported total. *)
Definition page (code : Z) (k : string) (n : nat) (total : Z) : response :=
  {| status_code := code;
     resp_issues := Some (replicate n (ticket k "bulk" id));
     resp_total := Some total |}.

(** Three pages of two tickets each; the second request fails. *)
Definition three_pages_second_fails : list response :=
  [page 200 "SE-10" 2 6; page 500 "SE-11" 2 6; page 200 "SE-12" 2 6].

Definition one_page (issues : list issue) : response :=
  {| status_code := 200;
     resp_issues := Some issues;
     resp_total := Some (Z.of_nat (length issues)) |}.

(** The end-to-end scenario: three created tickets, one of them Critical; two
    resolved tickets found by both resolved queries, one of them resolved
    before it was created; no transfer. *)
Definition scenario : world :=
  {| script :=
       [ one_page [ticket "SE-1" "printer" id;
                   ticket "SE-2" "badge" (with_priority "Critical");
                   ticket "SE-3" "laptop" id];
         one_page [ticket "SE-1" "printer"
                     (fun f => with_resolved "2024-09-18T09:00:00Z"
                                 (with_created "2024-09-16T09:00:00Z" f));
                   ticket "SE-5" "clock skew"
                     (fun f => with_resolved "2024-09-14T09:00:00Z"
                                 (with_created "2024-09-16T09:00:00Z" f))];
         one_page [ticket "SE-1" "printer, again" id];
         one_page [];
         one_page []; one_page []; one_page []; one_page [] ];
     sent := [] |}.

End Examples.

(** ** The rest of the aggregation *)

From Stdlib Require Import Sorted Permutation.

(** Python's [Counter] and [defaultdict(int)] as the code uses them: a dict
    from strings to counts, kept in insertion order. *)
Module Counting.

Definition counter : Type := list (string * nat).

(** [c[k] += 1]: a missing key is inserted at the end, with count 1. *)
Fixpoint incr (k : string) (c : counter) : counter :=
  match c with
  | [] => [(k, 1%nat)]
  | (k', n) :: c' =>
      if String.eqb k' k then (k', S n) :: c' else (k', n) :: incr k c'
  end.

(** [c[k]] of a [Counter]: 0 for a missing key. *)
Definition count_of (k : string) (c : counter) : nat :=
  match List.find (fun kv => String.eqb kv.1 k) c with
  | Some kv => kv.2
  | None => 0%nat
  end.

(** [sum(c.values())] *)
Definition total (c : counter) : nat := list_sum (map snd c).

(** One step of a stable sort by decreasing count: [x] stood before every
    item of [l] in the dict, so it goes before the items with an equal
    count. *)
Fixpoint insert_desc (x : string * nat) (l : counter) : counter :=
  match l with
  | [] => [x]
  | y :: l' => if (x.2 <? y.2)%nat then y :: insert_desc x l' else x :: y :: l'
  end.

(** [sorted(c.items(), key=itemgetter(1), reverse=True)] *)
Definition sort_desc (c : counter) : counter := fold_right insert_desc [] c.

(** [c.most_common(n)] *)
Definition most_common (n : nat) (c : counter) : counter :=
  take n (sort_desc c).

(** The items of [l] with count [n], in order. *)
Definition with_count (n : nat) (l : counter) : counter :=
  List.filter (fun kv => (kv.2 =? n)%nat) l.

(** Counts never go up along [l]. *)
Definition decreasing (l : counter) : Prop :=
  StronglySorted (fun x y => (y.2 <= x.2)%nat) l.

(** The number of [x] in [xs] with [f x = k]. *)
Definition occurrences {A} (f : A -> string) (k : string) (xs : list A) : nat :=
  length (List.filter (fun x => String.eqb (f x) k) xs).

End Counting.

Module Tally.
Import Metrics Counting.

(** The body of [for label in labels]. *)
Definition count_label (c : counter) (label : string) : counter :=
  if negb (String.eqb (lower label) "support") then incr label c else c.

(** The label part of the body of [for issue in new_tickets_response]. *)
Definition count_issue_labels (c : counter) (i : issue) : counter :=
  foldl count_label c (default [] (labels (fields_of i))).

(** [metrics['labels_count']] after the loop over the new tickets. *)
Definition labels_count (resp : list issue) : counter :=
  foldl count_issue_labels [] resp.

(** [top_labels = metrics['labels_count'].most_common(5)] *)
Definition top_labels (resp : list issue) : counter :=
  most_common 5 (labels_count resp).

(** Every label of the new tickets, in order. *)
Definition all_labels (resp : list issue) : list string :=
  concat (map (fun i => default [] (labels (fields_of i))) resp).

(** [team_transfers], the [byTeam] member of the report. *)
Definition team_transfers (tickets : list transfer_ticket) : counter :=
  foldl (fun c t => incr (tt_team t) c) [] tickets.

End Tally.

(** Python's float division of two integers: the binary64 value nearest to
    the exact quotient, ties to the even mantissa, held as the rational it
    is.  Exponents are not bounded: quotients stay far from the ends of the
    range of binary64. *)
Module Float.
Import Metrics.

(** [2 ** k] *)
Definition two_power (k : Z) : Q :=
  if (0 <=? k)%Z then inject_Z (2 ^ k)%Z else (1 / inject_Z (2 ^ (- k))%Z)%Q.

(** The integer nearest to [q], ties to the even one. *)
Definition round_half_even (q : Q) : Z :=
  let f := Qfloor q in
  let r := (q - inject_Z f)%Q in
  if Qltb r (1 # 2) then f
  else if Qltb (1 # 2) r then (f + 1)%Z
  else if Z.even f then f else (f + 1)%Z.

(** The binary64 value of [q]: a mantissa of 53 bits at the exponent [e] with
    [2 ** e <= |q| < 2 ** (e + 1)]. *)
Definition binary64 (q : Q) : Q :=
  if Qeq_bool q 0 then 0%Q
  else
    let a := if Qle_bool 0 q then q else (- q)%Q in
    let l := (Z.log2 (Qnum a) - Z.log2 (Zpos (Qden a)))%Z in
    let e := if Qle_bool (two_power l) a then l else (l - 1)%Z in
    let scale := two_power (52 - e)%Z in
    let m := round_half_even (a * scale) in
    let v := (inject_Z m / scale)%Q in
    if Qle_bool 0 q then v else (- v)%Q.

(** [a / b] on two [int]s, [b] not zero. *)
Definition float_div (a b : Z) : Q := binary64 (inject_Z a / inject_Z b).

End Float.

Module StatusAnalysis.
Import Metrics.

(** What [current_status_tickets] holds. *)
Record active_ticket := {
  at_key : string;
  at_summary : string;
  at_status : string;
  at_updated : string;
  days_in_status : Z
}.

Definition US_PER_DAY : Z := 86400000000.

(** [(a - b).days] for naive values: the whole days of the difference,
    rounded down. *)
Definition delta_days (a b : datetime) : Z :=
  ((ordinal a - ordinal b) * US_PER_DAY + (micros a - micros b)) / US_PER_DAY.

Section Clock.
(** [datetime.fromisoformat(s).replace(tzinfo=None)]; [None] when
    [fromisoformat] raises. *)
Variable naive_fromisoformat : string -> option datetime.

(** The reading of [datetime.now()] in the [n]-th round of the loop. *)
Variable now_at : nat -> datetime.

(** The days-in-status part of the body of [for issue in active_response]. *)
Definition days_in_status_of (now : datetime) (updated : string) : Z :=
  if truthy updated then
    match naive_fromisoformat (replace_Z updated) with
    | Some updated_dt => delta_days now updated_dt
    | None => 0
    end
  else 0.

Definition active_ticket_of (now : datetime) (i : issue) : active_ticket :=
  let f := fields_of i in
  let updated := default "" (updated f) in
  {| at_key := key i;
     at_summary := default "" (summary f);
     at_status := status_name f;
     at_updated := updated;
     days_in_status := days_in_status_of now updated |}.

(** [metrics['current_status_tickets']] after the loop. *)
Definition current_status_tickets (resp : list issue) : list active_ticket :=
  imap (fun n i => active_ticket_of (now_at n) i) resp.
End Clock.

(** The dict of [status_analysis] before the averages: for each status, in
    insertion order, its [count] and [total_days]. *)
Definition analysis : Type := list (string * (nat * Z)).

(** The body of [for ticket in metrics['current_status_tickets']]: a missing
    status starts from [{'count': 0, 'total_days': 0}]. *)
Fixpoint add_ticket (status : string) (days : Z) (a : analysis) : analysis :=
  match a with
  | [] => [(status, (1%nat, 0 + days))]
  | (s, (n, d)) :: a' =>
      if String.eqb s status then (s, (S n, d + days)) :: a'
      else (s, (n, d)) :: add_ticket status days a'
  end.

Definition status_totals (tickets : list active_ticket) : analysis :=
  foldl (fun a t => add_ticket (at_status t) (days_in_status t) a) [] tickets.

(** One value of the [statusAnalysis] member; [avg_days] is there when
    [count > 0]. *)
Record status_data := {
  sd_count : nat;
  sd_total_days : Z;
  sd_avg_days : option Q
}.

(** The body of [for status, data in status_analysis.items()]. *)
Definition with_average (e : string * (nat * Z)) : string * status_data :=
  let '(s, (n, d)) := e in
  (s, {| sd_count := n;
         sd_total_days := d;
         sd_avg_days :=
           if (0 <? n)%nat
           then Some (round1 (Float.float_div d (Z.of_nat n)))
           else None |}).

(** [dict(status_analysis)] of the report. *)
Definition status_analysis (tickets : list active_ticket)
    : list (string * status_data) :=
  map with_average (status_totals tickets).

(** The value under [status], if any. *)
Definition lookup_status {V} (status : string) (a : list (string * V))
    : option V :=
  snd <$> List.find (fun e => String.eqb e.1 status) a.

(** The tickets in [status], and the sum of their days. *)
Definition tickets_in (status : string) (tickets : list active_ticket)
    : list active_ticket :=
  List.filter (fun t => String.eqb (at_status t) status) tickets.

Definition sum_days (tickets : list active_ticket) : Z :=
  fold_right Z.add 0 (map days_in_status tickets).

End StatusAnalysis.

(** The test that ends the loop of [fetch_jira_data] after a successful
    page requested at offset [start_at]: a page shorter than [max_results],
    or an offset that reaches the reported total. *)
Module Pagination.

Definition stops (max_results start_at : Z) (r : response) : bool :=
  (Z.of_nat (length (default [] (resp_issues r))) <? max_results)
  || (start_at + max_results >=? default 0 (resp_total r)).

End Pagination.

(** The order of the requests *)
Module Log.
Import Metrics.

(** [new] is made of one run of requests for each query of [qs], in order,
    no run empty. *)
Definition in_runs (qs : list string) (new : list request) : Prop :=
  exists runs,
    new = concat runs /\
    Forall2 (fun q run => run <> [] /\ Forall (fun r => req_jql r = q) run)
            qs runs.

(** [c] appends to the log one run of requests for each query of [qs]. *)
Definition sends_runs (qs : list string) {A} (c : io A) : Prop :=
  forall w a w', c w = Some (a, w') ->
    exists new, sent w' = sent w ++ new /\ in_runs qs new.

(** [c] keeps what holds of the value it is given. *)
Definition keeps {S} (I : S -> Prop) (c : S -> io S) : Prop :=
  forall s w s' w', I s -> c s w = Some (s', w') -> I s'.

(** What the transfer loop maintains: no identifier twice, and teams of the
    fixed list only. *)
Definition transfers_ok (ts : list transfer_ticket) : Prop :=
  List.NoDup (map tt_key ts) /\ Forall (fun t => In (tt_team t) teams) ts.

End Log.

(** ** More sample data *)

Module MoreExamples.
Import Fetch Metrics Examples StatusAnalysis.

(** A stand-in for [fromisoformat(...).replace(tzinfo=None)] that knows one
    timestamp: 2024-09-23 at 18:00. *)
Definition sample_naive (s : string) : option datetime :=
  if String.eqb s "2024-09-23T18:00:00+00:00"
  then Some {| ordinal := 739152; micros := 64800000000 |}
  else None.

(** Two full pages of two tickets and a last page of one. *)
Definition three_pages : list response :=
  [page 200 "SE-20" 2 5; page 200 "SE-21" 2 5; page 200 "SE-22" 1 5].

(** A full page that reports no total. *)
Definition page_without_total : response :=
  {| status_code := 200;
     resp_issues := Some (replicate 2 (ticket "SE-30" "bulk" id));
     resp_total := None |}.

(** The answer to the scenario, and the world after it. *)
Definition scenario_report : report :=
  Eval vm_compute in
    match get_metrics sample_clock wednesday scenario with
    | Some (Success r, _) => r
    | _ => build_report {| new_tickets := []; incident_tickets := [];
                           resolved_tickets := []; transfer_tickets := [] |}
             "" ""
    end.

Definition scenario_after : world :=
  Eval vm_compute in
    match get_metrics sample_clock wednesday scenario with
    | Some (_, w) => w
    | None => scenario
    end.

End MoreExamples.

(** * Properties *)

Import Fetch Metrics Examples.

(** ** Text *)

Section TextFacts.

Lemma append_cons a s t : String a s +:+ t = String a (s +:+ t).
Proof. reflexivity. Qed.

Lemma append_nil_l s : EmptyString +:+ s = s.
Proof. reflexivity. Qed.

Lemma append_assoc s t u : (s +:+ t) +:+ u = s +:+ t +:+ u.
Proof.
  induction s as [|a s IH]; [reflexivity|].
  rewrite !append_cons. by rewrite IH.
Qed.



Lemma startswith_iff p : forall s,
  startswith p s = true <-> exists post, s = p +:+ post.
Proof.
  induction p as [|a p IH]; intros s; simpl.
  - split; [|done]. intros _. by exists s.
  - destruct s as [|b s].
    + split; [done|]. intros (post & H). discriminate.
    + destruct (Ascii.eqb a b) eqn:E.
      * apply Ascii.eqb_eq in E as ->. rewrite IH. split.
        -- intros (post & ->). by exists post.
        -- intros (post & H). rewrite append_cons in H. injection H as ->. by exists post.
      * apply Ascii.eqb_neq in E. split; [done|].
        intros (post & H). rewrite append_cons in H. congruence.
Qed.


(** Python's [sub in s]: [sub] occurs in [s]. *)
Lemma contains_iff sub : forall s,
  contains sub s = true <-> exists pre post, s = pre +:+ sub +:+ post.
Proof.
  induction s as [|a s IH]; simpl.
  - rewrite orb_false_r, startswith_iff. split.
    + intros (post & H). by exists EmptyString, post.
    + intros (pre & post & H). destruct pre as [|c pre]; [|discriminate].
      by exists post.
  - rewrite orb_true_iff, startswith_iff, IH. split.
    + intros [(post & H) | (pre & post & ->)].
      * by exists EmptyString, post.
      * by exists (String a pre), post.
    + intros (pre & post & H). destruct pre as [|c pre].
      * left. by exists post.
      * right. rewrite append_cons in H. injection H as -> ->. by exists pre, post.
Qed.

Lemma str_in_iff x xs : str_in x xs = true <-> In x xs.
Proof.
  unfold str_in. rewrite existsb_exists. split.
  - intros (y & Hin & Heq). apply String.eqb_eq in Heq. by subst.
  - intros Hin. exists x. split; [done|]. apply String.eqb_refl.
Qed.


End TextFacts.

(** ** Incidents *)

(** The loop over the new tickets keeps every ticket, and keeps as incidents
    the tickets that pass the test. *)
Lemma process_new_tickets_spec resp :
  process_new_tickets resp =
  (map new_ticket_of resp, List.filter is_incident (map new_ticket_of resp)).
Proof.
  unfold process_new_tickets.
  enough (H : forall acc,
             foldl add_new_ticket acc resp =
             (acc.1 ++ map new_ticket_of resp,
              acc.2 ++ List.filter is_incident (map new_ticket_of resp))).
  { by rewrite H. }
  induction resp as [|i resp IH]; intros [new inc]; simpl.
  - by rewrite !app_nil_r.
  - rewrite IH. unfold add_new_ticket. simpl.
    destruct (is_incident (new_ticket_of i)); simpl; by rewrite <- !app_assoc.
Qed.


(** ** Statistics of the report *)

Section Statistics.
Local Open Scope Q_scope.

Lemma Qltb_lt x y : Qltb x y = true <-> x < y.
Proof.
  unfold Qltb. rewrite negb_true_iff. split.
  - intros H. apply Qnot_le_lt. intros Hle. apply Qle_bool_iff in Hle. congruence.
  - intros H. destruct (Qle_bool y x) eqn:E; [|done].
    apply Qle_bool_iff in E. lra.
Qed.

Lemma Qltb_ge x y : Qltb x y = false <-> y <= x.
Proof. unfold Qltb. rewrite negb_false_iff. apply Qle_bool_iff. Qed.

Lemma Qle_bool_gt x y : Qle_bool x y = false <-> y < x.
Proof. rewrite <- Qltb_lt. unfold Qltb. by rewrite negb_true_iff. Qed.



Lemma foldl_Qplus a (ts : list Q) :
  foldl Qplus a ts == a + fold_right Qplus 0 ts.
Proof.
  revert a. induction ts as [|t ts IH]; intros a; simpl.
  - lra.
  - rewrite IH. lra.
Qed.

Lemma Qsum_fold_right ts : Qsum ts == fold_right Qplus 0 ts.
Proof. unfold Qsum. rewrite foldl_Qplus. lra. Qed.

Lemma resolution_times_spec resolved :
  resolution_times resolved = Spec.non_negative (map resolution_days resolved).
Proof. reflexivity. Qed.



(** Each step of the bucket loop is a [bump] of one bucket, the one whose
    range holds the duration. *)
Lemma add_to_bucket_bump b d :
  exists s, Spec.in_speed s d /\ add_to_bucket b d = Spec.bump s b.
Proof.
  unfold add_to_bucket.
  destruct (Qltb d 1) eqn:E1.
  { exists Spec.Under24h. split; [by apply Qltb_lt|done]. }
  apply Qltb_ge in E1.
  destruct (Qle_bool d 3) eqn:E2.
  { exists Spec.OneToThree. apply Qle_bool_iff in E2. done. }
  apply Qle_bool_gt in E2.
  destruct (Qle_bool d 7) eqn:E3.
  { exists Spec.ThreeToSeven. apply Qle_bool_iff in E3. done. }
  apply Qle_bool_gt in E3.
  exists Spec.OverSeven. done.
Qed.

(** The ranges of the buckets do not overlap. *)
Lemma in_speed_unique s s' d : Spec.in_speed s d -> Spec.in_speed s' d -> s' = s.
Proof.
  destruct s, s'; simpl; intros H H'; try reflexivity; exfalso; lra.
Qed.

(** C2.  The bucket loop puts a duration in exactly one bucket: below one day
    in under-24h, from one to three days in 1-3 days, above three and up to
    seven days in 3-7 days, above seven days in over-7-days; the boundary
    values 1, 3 and 7 fall in the lower bucket. *)
Theorem duration_lands_in_exactly_one_bucket (b : buckets) (d : Q) :
  (exists s, Spec.in_speed s d /\
             (forall s', Spec.in_speed s' d -> s' = s) /\
             add_to_bucket b d = Spec.bump s b) /\
  add_to_bucket b 1 = Spec.bump Spec.OneToThree b /\
  add_to_bucket b 3 = Spec.bump Spec.OneToThree b /\
  add_to_bucket b 7 = Spec.bump Spec.ThreeToSeven b.
Proof.
  split; [|repeat split].
  destruct (add_to_bucket_bump b d) as (s & Hin & Hadd).
  exists s. split; [exact Hin|]. split; [|exact Hadd].
  intros s' Hs'. by apply (in_speed_unique s s' d).
Qed.

Lemma bucket_total_bump s b :
  bucket_total (Spec.bump s b) = S (bucket_total b).
Proof. destruct s; unfold bucket_total; simpl; lia. Qed.

Lemma bucket_total_foldl ts b :
  bucket_total (foldl add_to_bucket b ts) = (bucket_total b + length ts)%nat.
Proof.
  revert b. induction ts as [|t ts IH]; intros b; simpl; [lia|].
  rewrite IH. destruct (add_to_bucket_bump b t) as (s & _ & ->).
  rewrite bucket_total_bump. lia.
Qed.

Lemma non_negative_length ds :
  (length (Spec.non_negative ds) <= length ds)%nat.
Proof. apply List.filter_length_le. Qed.

Lemma non_negative_shorter ds :
  (length (Spec.non_negative ds) < length ds)%nat <-> exists d, In d ds /\ d < 0.
Proof.
  unfold Spec.non_negative. induction ds as [|d ds IH]; simpl.
  - split; [lia|]. intros (d & [] & _).
  - pose proof (List.filter_length_le (fun d => Qle_bool 0 d) ds) as Hle.
    destruct (Qle_bool 0 d) eqn:E; simpl.
    + apply Qle_bool_iff in E. split.
      * intros H. apply PeanoNat.lt_S_n in H. apply IH in H as (d' & Hin & Hd').
        exists d'. auto.
      * intros (d' & [<- | Hin] & Hd'); [lra|].
        apply -> PeanoNat.Nat.succ_lt_mono. apply IH. eauto.
    + apply Qle_bool_gt in E. split; [|lia].
      intros _. exists d. auto.
Qed.

(** C10.  The four bucket counts of the report add up to the number of
    resolved tickets with a non-negative duration; that is at most
    [resolvedTicketsCount], and less exactly when some resolved ticket has a
    negative duration. *)
Theorem speed_buckets_sum_to_non_negative_count
    (m : storage) (ws we : string) :
  let r := build_report m ws we in
  let counted := Spec.non_negative (map resolution_days (resolved_tickets m)) in
  bucket_total (speedBuckets r) = length counted /\
  averageResolutionDays r = avg_resolution counted /\
  (bucket_total (speedBuckets r) <= resolvedTicketsCount r)%nat /\
  ((bucket_total (speedBuckets r) < resolvedTicketsCount r)%nat <->
   exists t, In t (resolved_tickets m) /\ resolution_days t < 0).
Proof.
  intros r counted. subst r. unfold build_report. simpl.
  rewrite resolution_times_spec. fold counted.
  unfold resolution_buckets. rewrite bucket_total_foldl.
  change (bucket_total no_buckets) with 0%nat. rewrite Nat.add_0_l.
  pose proof (non_negative_length (map resolution_days (resolved_tickets m))) as Hle.
  rewrite length_map in Hle. fold counted in Hle.
  split; [reflexivity|]. split; [reflexivity|]. split; [exact Hle|].
  subst counted. rewrite <- (length_map resolution_days (resolved_tickets m)).
  rewrite non_negative_shorter. split.
  - intros (d & Hin & Hd). apply in_map_iff in Hin as (t & <- & Hin). eauto.
  - intros (t & Hin & Hd). exists (resolution_days t). split; [|exact Hd].
    by apply in_map.
Qed.

End Statistics.

(** ** The origin-project key of a transfer *)

Section SeKey.









(** A first match and no match exclude each other. *)
Lemma first_se_key_not_none m s : Spec.first_se_key m s -> ~ Spec.no_se_key s.
Proof.
  intros (pre & (ds & post & Hs & -> & Hds & Hall & _) & _) Hno.
  destruct ds as [|d ds]; [done|].
  apply (Hno (S (String.length pre))).
  exists pre, d, (ds +:+ post). simpl in Hall.
  apply andb_true_iff in Hall as [Hd _].
  split; [lia|]. split; [done|].
  rewrite Hs. by rewrite !append_assoc.
Qed.




End SeKey.




(** ** Merge of the resolved-ticket queries *)

Section Merge.

Lemma first_with_key_snoc k l i :
  Spec.first_with_key k (l ++ [i]) =
  match Spec.first_with_key k l with
  | Some x => Some x
  | None => if String.eqb (key i) k then Some i else None
  end.
Proof.
  unfold Spec.first_with_key. induction l as [|x l IH]; simpl.
  - by destruct (String.eqb (key i) k).
  - by destruct (String.eqb (key x) k).
Qed.

Lemma first_with_key_app k l1 l2 :
  Spec.first_with_key k (l1 ++ l2) =
  match Spec.first_with_key k l1 with
  | Some x => Some x
  | None => Spec.first_with_key k l2
  end.
Proof.
  unfold Spec.first_with_key. induction l1 as [|x l1 IH]; simpl; [done|].
  by destruct (String.eqb (key x) k).
Qed.

Lemma with_key_snoc k l i :
  Spec.with_key k (l ++ [i]) =
  Spec.with_key k l ++ (if String.eqb (key i) k then [i] else []).
Proof. unfold Spec.with_key. by rewrite List.filter_app. Qed.

Lemma first_with_key_None k l :
  Spec.first_with_key k l = None <-> ~ In k (map key l).
Proof.
  unfold Spec.first_with_key. induction l as [|x l IH]; simpl; [tauto|].
  destruct (String.eqb (key x) k) eqn:E.
  - apply String.eqb_eq in E. split; [done|]. tauto.
  - apply String.eqb_neq in E. rewrite IH. tauto.
Qed.

Lemma first_with_key_Some_in k l i :
  Spec.first_with_key k l = Some i -> In k (map key l).
Proof.
  intros H. apply find_some in H as [Hin Hk].
  apply String.eqb_eq in Hk as <-. by apply in_map.
Qed.

Lemma first_with_key_in k l :
  In k (map key l) -> exists i, Spec.first_with_key k l = Some i.
Proof.
  intros Hin. destruct (Spec.first_with_key k l) as [i|] eqn:E; [eauto|].
  by apply first_with_key_None in E.
Qed.

Lemma merged_so_far_start : Spec.merged_so_far (∅, []) [].
Proof. split; intros k; simpl; [set_solver|done]. Qed.

Lemma add_resolved_inv acc seen i :
  Spec.merged_so_far acc seen -> Spec.merged_so_far (add_resolved acc i) (seen ++ [i]).
Proof.
  intros [Hkeys Hlist]. unfold add_resolved.
  destruct (decide (key i ∈ acc.1)) as [Hin | Hnew].
  - split; intros k.
    + rewrite Hkeys, map_app, in_app_iff. simpl.
      apply Hkeys in Hin. split; [by left|]. by intros [H | [<- | []]].
    + rewrite Hlist, first_with_key_snoc.
      destruct (Spec.first_with_key k seen) eqn:E; [done|].
      destruct (String.eqb (key i) k) eqn:Ek; [|done].
      apply String.eqb_eq in Ek as <-.
      apply first_with_key_None in E. by apply Hkeys in Hin.
  - split; intros k; simpl.
    + rewrite elem_of_union, elem_of_singleton, Hkeys, map_app, in_app_iff.
      simpl. split; [intros [-> | H]; tauto | intros [H | [<- | []]]; tauto].
    + rewrite with_key_snoc, Hlist, first_with_key_snoc.
      destruct (Spec.first_with_key k seen) eqn:E;
        [|by destruct (String.eqb (key i) k)].
      destruct (String.eqb (key i) k) eqn:Ek; [|done].
      apply String.eqb_eq in Ek as <-. exfalso. apply Hnew, Hkeys.
      by apply (first_with_key_Some_in _ _ _ E).
Qed.

Lemma merge_response_inv resp : forall acc seen,
  Spec.merged_so_far acc seen ->
  Spec.merged_so_far (merge_response acc resp) (seen ++ resp).
Proof.
  unfold merge_response.
  induction resp as [|i resp IH]; intros acc seen H; simpl.
  - by rewrite app_nil_r.
  - replace (seen ++ i :: resp) with ((seen ++ [i]) ++ resp)
      by by rewrite <- app_assoc.
    apply IH. by apply add_resolved_inv.
Qed.

(** The merged list holds, for every identifier, the first issue that carries
    it in the two answers taken in query order, and nothing else. *)
Lemma merge_resolved_with_key resp1 resp2 k :
  Spec.with_key k (merge_resolved resp1 resp2) =
  match Spec.first_with_key k (resp1 ++ resp2) with
  | Some i => [i]
  | None => []
  end.
Proof.
  unfold merge_resolved.
  pose proof (merge_response_inv resp2 _ _
                (merge_response_inv resp1 _ _ merged_so_far_start)) as [_ H].
  apply H.
Qed.

End Merge.

(** C3.  An identifier found by both resolved-ticket queries puts exactly one
    issue in the merged list: the first one met in query order, which is its
    first issue in the answer of the first query. *)
Theorem merge_keeps_first_occurrence_once
    (resp1 resp2 : list issue) (k : string) :
  In k (map key resp1) -> In k (map key resp2) ->
  exists i,
    Spec.first_with_key k resp1 = Some i /\
    Spec.first_with_key k (resp1 ++ resp2) = Some i /\
    Spec.with_key k (merge_resolved resp1 resp2) = [i] /\
    length (Spec.with_key k (merge_resolved resp1 resp2)) = 1%nat.
Proof.
  intros H1 _. destruct (first_with_key_in k resp1 H1) as (i & Hi).
  exists i. rewrite merge_resolved_with_key, first_with_key_app, Hi. done.
Qed.

Lemma merge_keeps_first_occurrence_once_witness :
  exists i,
    Spec.first_with_key "SE-2" by_resolved_field = Some i /\
    Spec.first_with_key "SE-2" (by_resolved_field ++ by_status_change) = Some i /\
    Spec.with_key "SE-2" (merge_resolved by_resolved_field by_status_change) = [i] /\
    length (Spec.with_key "SE-2"
              (merge_resolved by_resolved_field by_status_change)) = 1%nat.
Proof.
  apply (merge_keeps_first_occurrence_once by_resolved_field by_status_change "SE-2");
    simpl; tauto.
Defined.

(** ** Resolution date from the changelog *)

Section Changelog.






End Changelog.



(** On the sample ticket the scan skips the move to In Progress and the
    assignee item, and stops at the move to Done two days after creation. *)
Example changelog_sample :
  find_resolution_date_in_changelog issue_done_in_history
    = Some "2024-09-18T09:00:00Z" /\
  (resolution_days_of sample_clock issue_done_in_history == 2)%Q.
Proof. split; reflexivity. Qed.

(** ** Paginated fetch *)

Section FetchFacts.
Variables (jql fields : string) (expand : option string) (max_results : Z).

Lemma issues_of_cons r pages :
  issues_of (r :: pages) = default [] (resp_issues r) ++ issues_of pages.
Proof. reflexivity. Qed.

(** Pages that make the loop go on are accumulated; the failing answer after
    them ends the loop with what was accumulated. *)
Lemma fetch_loop_stops_at_failure pre bad post : forall log start_at all_issues,
  all_continue max_results start_at pre = true ->
  status_code bad <> 200 ->
  fetch_loop jql fields expand max_results (pre ++ bad :: post) log start_at all_issues =
  Some (all_issues ++ issues_of pre,
        {| script := post;
           sent := log ++ map (params jql fields expand max_results)
                            (offsets max_results start_at (S (length pre))) |}).
Proof.
  induction pre as [|r pre IH]; intros log start_at all_issues Hgo Hbad.
  - simpl. apply Z.eqb_neq in Hbad. rewrite Hbad. simpl.
    by rewrite app_nil_r.
  - simpl in Hgo. unfold continues in Hgo.
    apply andb_true_iff in Hgo as [Hr Hgo].
    apply andb_true_iff in Hr as [Hr Htotal].
    apply andb_true_iff in Hr as [Hok Hfull].
    apply negb_true_iff in Hfull, Htotal.
    change ((r :: pre) ++ bad :: post) with (r :: pre ++ bad :: post).
    cbn [fetch_loop]. rewrite Hok, Hfull, Htotal. cbn [negb orb].
    rewrite (IH _ _ _ Hgo Hbad). rewrite issues_of_cons.
    cbn [length offsets map]. by rewrite <- !app_assoc.
Qed.

(** Without asking that the pages before it make the loop go on: a script
    with a failing answer always yields a list, made of the first pages. *)
Lemma fetch_loop_yields_prefix pre bad post : forall log start_at all_issues,
  status_code bad <> 200 ->
  exists n w',
    (n <= length pre)%nat /\
    fetch_loop jql fields expand max_results (pre ++ bad :: post) log start_at all_issues =
    Some (all_issues ++ issues_of (take n pre), w').
Proof.
  induction pre as [|r pre IH]; intros log start_at all_issues Hbad.
  - exists 0%nat. simpl. apply Z.eqb_neq in Hbad. rewrite Hbad. simpl.
    eexists. split; [lia|]. by rewrite app_nil_r.
  - change ((r :: pre) ++ bad :: post) with (r :: pre ++ bad :: post).
    cbn [fetch_loop]. destruct (status_code r =? 200) eqn:Hok; cbn [negb].
    + destruct (_ || _) eqn:Hstop.
      * exists 1%nat. eexists. split; [simpl; lia|].
        cbn [take]. rewrite take_0. unfold issues_of. simpl.
        by rewrite app_nil_r.
      * destruct (IH (log ++ [params jql fields expand max_results start_at]) (start_at + max_results)
                    (all_issues ++ default [] (resp_issues r)) Hbad)
          as (n & w' & Hn & ->).
        exists (S n), w'. split; [simpl; lia|].
        cbn [take]. rewrite issues_of_cons. by rewrite <- app_assoc.
    + exists 0%nat. eexists. split; [lia|]. simpl. by rewrite app_nil_r.
Qed.


End FetchFacts.

(** C6.  When the pages before a failing answer all make the loop go on, so
    that the failing request is sent, the fetch stops at the failure and
    returns the issues of the pages before it, in order: no error, and
    nothing dropped. *)
Theorem fetch_returns_pages_before_failure
    (jql fields : string) (expand : option string) (max_results : Z)
    (w : world) (pre : list response) (bad : response) (post : list response) :
  script w = pre ++ bad :: post ->
  all_continue max_results 0 pre = true ->
  status_code bad <> 200 ->
  fetch_jira_data jql fields expand max_results w =
  Some (issues_of pre,
        {| script := post;
           sent := sent w ++ map (params jql fields expand max_results)
                               (offsets max_results 0 (S (length pre))) |}).
Proof.
  intros Hscript Hgo Hbad. unfold fetch_jira_data. rewrite Hscript.
  by rewrite (fetch_loop_stops_at_failure _ _ _ _ _ _ _ _ _ _ Hgo Hbad).
Qed.

Lemma fetch_returns_pages_before_failure_witness :
  fetch_jira_data "project = SE" default_fields None 2
    {| script := three_pages_second_fails; sent := [] |} =
  Some (issues_of [page 200 "SE-10" 2 6],
        {| script := [page 200 "SE-12" 2 6];
           sent := [] ++ map (params "project = SE" default_fields None 2)
                           (offsets 2 0 2) |}).
Proof.
  apply (fetch_returns_pages_before_failure "project = SE" default_fields None 2
           {| script := three_pages_second_fails; sent := [] |}
           [page 200 "SE-10" 2 6] (page 500 "SE-11" 2 6) [page 200 "SE-12" 2 6]).
  - reflexivity.
  - reflexivity.
  - simpl. lia.
Defined.

(** With a failure on page 2 of 3, the result is the two issues of page 1. *)
Example fetch_three_pages_second_fails :
  fst <$> fetch_jira_data "project = SE" default_fields None 2
            {| script := three_pages_second_fails; sent := [] |}
  = Some [ticket "SE-10" "bulk" id; ticket "SE-10" "bulk" id].
Proof. reflexivity. Qed.

(** ** The week window *)

Section WindowFacts.

Lemma plus_days_Some d k :
  MINORD <= ordinal d + k <= MAXORD ->
  plus_days d k = Some {| ordinal := ordinal d + k; micros := micros d |}.
Proof.
  intros [Hlo Hhi]. unfold plus_days.
  apply Z.leb_le in Hlo, Hhi. by rewrite Hlo, Hhi.
Qed.

Lemma weekday_range d : 0 <= weekday d <= 6.
Proof. unfold weekday. pose proof (Z.mod_pos_bound (ordinal d + 6) 7). lia. Qed.

(** The window of [/metrics], for a clock past the first week of year 1. *)
Lemma metrics_window_value today :
  8 <= ordinal today <= MAXORD ->
  metrics_window today =
  Some ({| ordinal := ordinal today - (7 + weekday today);
           micros := micros today |},
        {| ordinal := ordinal today - (7 + weekday today) + 6;
           micros := micros today |}).
Proof.
  intros Hrange. pose proof (weekday_range today) as Hwd.
  assert (Hmon : weekday today <= ordinal today - 8).
  { unfold weekday in *. Z.div_mod_to_equations. lia. }
  unfold metrics_window, minus_days, MINORD, MAXORD in *.
  rewrite plus_days_Some by (unfold MINORD, MAXORD; simpl; lia). simpl.
  rewrite plus_days_Some by (unfold MINORD, MAXORD; simpl; lia). simpl.
  rewrite plus_days_Some by (unfold MINORD, MAXORD; simpl; lia). simpl.
  do 3 f_equal; lia.
Qed.

(** The window of [/test-dates] starts on the Monday of the current week. *)
Lemma test_dates_window_value today :
  1 <= ordinal today <= MAXORD - 6 ->
  test_dates_window today =
  Some ({| ordinal := ordinal today - weekday today; micros := micros today |},
        {| ordinal := ordinal today - weekday today + 6;
           micros := micros today |}).
Proof.
  intros Hrange. pose proof (weekday_range today) as Hwd.
  assert (Hmon : weekday today <= ordinal today - 1).
  { unfold weekday in *. Z.div_mod_to_equations. lia. }
  unfold test_dates_window, minus_days, MINORD, MAXORD in *.
  rewrite plus_days_Some by (unfold MINORD, MAXORD; simpl; lia). simpl.
  rewrite plus_days_Some by (unfold MINORD, MAXORD; simpl; lia). simpl.
  do 3 f_equal; lia.
Qed.

End WindowFacts.

(** ** The requests of the handler *)

Section Log.








(** A successful answer of [/metrics] is the report built from what the
    fetches collected over the window. *)
Lemma get_metrics_success fromisoformat today w r w' :
  get_metrics fromisoformat today w = Some (Success r, w') ->
  exists week_start week_end m,
    metrics_window today = Some (week_start, week_end) /\
    collect fromisoformat (strftime_ymd week_start) (strftime_ymd week_end) w
      = Some (m, w') /\
    r = build_report m (strftime_ymd week_start) (strftime_ymd week_end).
Proof.
  unfold get_metrics.
  destruct (metrics_window today) as [[week_start week_end]|]; [|done].
  unfold io_bind, io_ret.
  destruct (collect _ _ _ w) as [[m w1]|] eqn:E; [|done].
  intros [= <- <-]. by exists week_start, week_end, m.
Qed.

(** What the report counts: the new tickets are those of the first answer,
    the incidents are the new tickets that pass the test, and the resolved
    tickets are the merge of the answers of the two resolved-ticket queries,
    fetched one after the other. *)
Lemma collect_lists fromisoformat ws we w m w' :
  collect fromisoformat ws we w = Some (m, w') ->
  exists created w1 resp1 w2 resp2 w3,
    fetch_jira_data (new_tickets_jql ws we) default_fields None 100 w
      = Some (created, w1) /\
    fetch_jira_data (resolved_jql1 ws we)
      "key,summary,status,created,resolved,updated" (Some "changelog") 100 w1
      = Some (resp1, w2) /\
    fetch_jira_data (resolved_jql2 ws we)
      "key,summary,status,created,resolved,updated" (Some "changelog") 100 w2
      = Some (resp2, w3) /\
    new_tickets m = map new_ticket_of created /\
    incident_tickets m = List.filter is_incident (new_tickets m) /\
    resolved_tickets m =
      map (resolved_ticket_of fromisoformat) (merge_resolved resp1 resp2).
Proof.
  unfold collect, io_bind at 1.
  destruct (fetch_jira_data (new_tickets_jql ws we) _ _ _ w)
    as [[created w1]|] eqn:E0; [|done].
  rewrite process_new_tickets_spec.
  unfold io_bind at 1. cbn [io_for]. unfold fetch_resolved at 1, io_bind at 1 2.
  destruct (fetch_jira_data (resolved_jql1 ws we) _ _ _ w1)
    as [[resp1 w2]|] eqn:E1; [|done].
  unfold io_ret at 1. unfold fetch_resolved at 1, io_bind at 1 2.
  destruct (fetch_jira_data (resolved_jql2 ws we) _ _ _ w2)
    as [[resp2 w3]|] eqn:E2; [|done].
  unfold io_ret at 1 2. unfold io_bind at 1.
  destruct (fetch_jira_data (active_jql ws we) _ _ _ w3)
    as [[active w4]|]; [|done].
  unfold io_bind.
  destruct (io_for teams _ _ w4) as [[transfers w5]|]; [|done].
  intros [= <- <-]. by exists created, w1, resp1, w2, resp2, w3.
Qed.

End Log.



(** On Wednesday 2024-09-25 the window is Monday 2024-09-16 to Sunday
    2024-09-22, and the scenario is answered over it. *)
Example metrics_window_sample :
  (fun w => (strftime_ymd w.1, strftime_ymd w.2)) <$> metrics_window wednesday
  = Some ("2024-09-16", "2024-09-22").
Proof. reflexivity. Qed.

Example end_to_end_scenario :
  fst <$> get_metrics sample_clock wednesday scenario =
  Some (Success
          {| newTicketsCount := 3;
             resolvedTicketsCount := 2;
             averageResolutionDays := 20 # 10;
             incidentsCount := 1;
             transfersCount := 0;
             speedBuckets := {| under_24h := 0; b_1_3_days := 1;
                                b_3_7_days := 0; over_7_days := 0 |};
             weekRange := "2024-09-16 to 2024-09-22";
             transfers_details := [] |}).
Proof. vm_compute. reflexivity. Qed.

(** ** The window of [/test-dates] *)

(** The window of [/test-dates] is the window of [/metrics] moved one week
    forward: the two are never the same. *)
Lemma test_dates_window_is_a_week_later today :
  8 <= ordinal today <= MAXORD - 6 ->
  exists ws we ts te,
    metrics_window today = Some (ws, we) /\
    test_dates_window today = Some (ts, te) /\
    ordinal ts = ordinal ws + 7 /\ ordinal te = ordinal we + 7.
Proof.
  intros Hrange. eexists _, _, _, _.
  split; [apply metrics_window_value; lia|].
  split; [apply test_dates_window_value; lia|].
  simpl. lia.
Qed.

(** C8, on the code.  On Wednesday 2024-09-25 [/test-dates] echoes the week
    of 2024-09-23 to 2024-09-29 and the query over it, while the queries of
    [/metrics] run over 2024-09-16 to 2024-09-22. *)
Theorem test_dates_echoes_current_week :
  test_dates wednesday =
    Some {| current_system_date := "2024-09-25";
            calculated_week_start := "2024-09-23";
            calculated_week_end := "2024-09-29";
            jql_current := new_tickets_jql "2024-09-23" "2024-09-29" |} /\
  (fun w => (strftime_ymd w.1, strftime_ymd w.2)) <$> metrics_window wednesday
    = Some ("2024-09-16", "2024-09-22") /\
  new_tickets_jql "2024-09-23" "2024-09-29"
    <> new_tickets_jql "2024-09-16" "2024-09-22".
Proof. split; [reflexivity|]. split; [reflexivity|]. discriminate. Qed.

(** * Further properties *)

(** ** Counters *)

Section CountingFacts.
Import Counting.

Lemma count_of_incr k k' (c : counter) :
  count_of k (incr k' c) =
  (count_of k c + if String.eqb k' k then 1 else 0)%nat.
Proof.
  unfold count_of. induction c as [|[k0 n] c IH]; simpl.
  - destruct (String.eqb k' k); reflexivity.
  - destruct (String.eqb k0 k') eqn:E0; simpl.
    + apply String.eqb_eq in E0 as ->.
      destruct (String.eqb k' k); simpl; lia.
    + destruct (String.eqb k0 k) eqn:E1; simpl.
      * apply String.eqb_eq in E1 as ->.
        rewrite String.eqb_sym, E0. lia.
      * apply IH.
Qed.

Lemma total_incr k (c : counter) : total (incr k c) = S (total c).
Proof.
  unfold total. induction c as [|[k0 n] c IH]; simpl; [reflexivity|].
  destruct (String.eqb k0 k); simpl; [reflexivity|]. rewrite IH. lia.
Qed.

Lemma keys_incr k (c : counter) k0 :
  In k0 (map fst (incr k c)) <-> k0 = k \/ In k0 (map fst c).
Proof.
  induction c as [|[k1 n] c IH]; simpl.
  - intuition congruence.
  - destruct (String.eqb k1 k) eqn:E; simpl.
    + apply String.eqb_eq in E as ->. intuition congruence.
    + rewrite IH. intuition congruence.
Qed.

Lemma NoDup_keys_incr k (c : counter) :
  List.NoDup (map fst c) -> List.NoDup (map fst (incr k c)).
Proof.
  induction c as [|[k1 n] c IH]; simpl; intros Hnd.
  - constructor; [by intros []|constructor].
  - inversion Hnd as [|? ? Hnotin Hnd']; subst.
    destruct (String.eqb k1 k) eqn:E; simpl.
    + by constructor.
    + apply String.eqb_neq in E. constructor; [|by apply IH].
      rewrite keys_incr. intros [-> | Hin]; done.
Qed.

(** A counter fed the keys [f x] of a list counts, for each key, the items
    that carry it. *)
Lemma count_of_foldl_incr {A} (f : A -> string) k xs : forall c,
  count_of k (foldl (fun c x => incr (f x) c) c xs) =
  (count_of k c + occurrences f k xs)%nat.
Proof.
  unfold occurrences.
  induction xs as [|x xs IH]; intros c; simpl; [lia|].
  rewrite IH, count_of_incr. destruct (String.eqb (f x) k); simpl; lia.
Qed.

Lemma total_foldl_incr {A} (f : A -> string) xs : forall c,
  total (foldl (fun c x => incr (f x) c) c xs) = (total c + length xs)%nat.
Proof.
  induction xs as [|x xs IH]; intros c; simpl; [lia|].
  rewrite IH, total_incr. lia.
Qed.

Lemma NoDup_keys_foldl_incr {A} (f : A -> string) xs : forall c,
  List.NoDup (map fst c) ->
  List.NoDup (map fst (foldl (fun c x => incr (f x) c) c xs)).
Proof.
  induction xs as [|x xs IH]; intros c Hc; simpl; [done|].
  apply IH. by apply NoDup_keys_incr.
Qed.

Lemma keys_foldl_incr {A} (f : A -> string) xs k : forall c,
  In k (map fst (foldl (fun c x => incr (f x) c) c xs)) <->
  In k (map fst c) \/ In k (map f xs).
Proof.
  induction xs as [|x xs IH]; intros c; simpl; [tauto|].
  rewrite IH, keys_incr. intuition congruence.
Qed.

(** *** Sorting by decreasing count *)

Lemma insert_desc_perm x l : Permutation (insert_desc x l) (x :: l).
Proof.
  induction l as [|y l IH]; simpl; [done|].
  destruct (x.2 <? y.2)%nat; [|done].
  rewrite IH. apply perm_swap.
Qed.

Lemma sort_desc_perm c : Permutation (sort_desc c) c.
Proof.
  unfold sort_desc. induction c as [|x c IH]; simpl; [done|].
  rewrite insert_desc_perm. by constructor.
Qed.

Lemma insert_desc_decreasing x l :
  decreasing l -> decreasing (insert_desc x l).
Proof.
  unfold decreasing. induction l as [|y l IH]; simpl; intros Hs.
  - constructor; [constructor|done].
  - apply StronglySorted_inv in Hs as [Hl Hy].
    destruct (x.2 <? y.2)%nat eqn:E.
    + apply Nat.ltb_lt in E. constructor; [by apply IH|].
      rewrite insert_desc_perm. constructor; [lia|done].
    + apply Nat.ltb_ge in E. constructor; [by constructor|].
      constructor; [done|]. eapply Forall_impl; [exact Hy|].
      simpl. intros z Hz. lia.
Qed.

Lemma sort_desc_decreasing c : decreasing (sort_desc c).
Proof.
  unfold sort_desc. induction c as [|x c IH]; simpl.
  - constructor.
  - by apply insert_desc_decreasing.
Qed.

Lemma with_count_insert_desc n x l :
  with_count n (insert_desc x l) = with_count n (x :: l).
Proof.
  unfold with_count. induction l as [|y l IH]; simpl; [done|].
  destruct (x.2 <? y.2)%nat eqn:E; [|done].
  apply Nat.ltb_lt in E. simpl. rewrite IH. simpl.
  destruct (x.2 =? n)%nat eqn:Ex; [|done].
  apply Nat.eqb_eq in Ex.
  destruct (y.2 =? n)%nat eqn:Ey; [|done].
  apply Nat.eqb_eq in Ey. lia.
Qed.

(** The sort is stable: items with the same count keep their order. *)
Lemma sort_desc_stable n c : with_count n (sort_desc c) = with_count n c.
Proof.
  unfold sort_desc. induction c as [|x c IH]; simpl; [done|].
  rewrite with_count_insert_desc. unfold with_count in *. simpl.
  by rewrite IH.
Qed.

End CountingFacts.

(** ** The label tally *)

Section TallyFacts.
Import Counting Tally.

(** The tally is a counter fed the labels that are not "support". *)
Lemma labels_count_spec resp :
  labels_count resp =
  foldl (fun c label => incr label c) []
        (List.filter (fun label => negb (String.eqb (lower label) "support"))
                     (all_labels resp)).
Proof.
  unfold labels_count, all_labels.
  enough (H : forall c,
            foldl count_issue_labels c resp =
            foldl (fun c label => incr label c) c
              (List.filter (fun label => negb (String.eqb (lower label) "support"))
                 (concat (map (fun i => default [] (labels (fields_of i))) resp))))
    by apply H.
  induction resp as [|i resp IH]; intros c; simpl; [done|].
  rewrite IH, List.filter_app, foldl_app. f_equal.
  unfold count_issue_labels. generalize (default [] (labels (fields_of i))).
  intros ls. revert c. induction ls as [|l ls IHl]; intros c; simpl; [done|].
  rewrite IHl. unfold count_label.
  by destruct (negb (String.eqb (lower l) "support")).
Qed.

Lemma occurrences_filter (p : string -> bool) k (xs : list string) :
  occurrences id k (List.filter p xs) =
  if p k then occurrences id k xs else 0%nat.
Proof.
  unfold occurrences, id. induction xs as [|x xs IH]; simpl.
  - by destruct (p k).
  - destruct (String.eqb x k) eqn:E.
    + apply String.eqb_eq in E as ->.
      destruct (p k) eqn:Ep; simpl; [|exact IH].
      rewrite String.eqb_refl. simpl. by rewrite IH.
    + destruct (p x); simpl; rewrite ?E; exact IH.
Qed.

(** X1.  The tally counts, for every label that is not "support" in any
    case, its occurrences over the labels of all new tickets; a label that
    lower-cases to "support" is never counted and never a key. *)
Theorem labels_count_counts_all_but_support (resp : list issue) (label : string) :
  count_of label (labels_count resp) =
    (if String.eqb (lower label) "support" then 0%nat
     else occurrences id label (all_labels resp)) /\
  (In label (map fst (labels_count resp)) <->
   lower label <> "support" /\ In label (all_labels resp)) /\
  List.NoDup (map fst (labels_count resp)).
Proof.
  rewrite labels_count_spec. split; [|split].
  - rewrite (count_of_foldl_incr id), occurrences_filter.
    by destruct (String.eqb (lower label) "support").
  - rewrite (keys_foldl_incr id). simpl. rewrite map_id, filter_In.
    rewrite negb_true_iff, String.eqb_neq. tauto.
  - apply (NoDup_keys_foldl_incr id). constructor.
Qed.

(** X2.  The top labels are the first five of the tally sorted by decreasing
    count, labels with the same count staying in the order in which they were
    first seen. *)
Theorem top_labels_are_five_most_common (resp : list issue) :
  exists sorted,
    top_labels resp = take 5 sorted /\
    Permutation sorted (labels_count resp) /\
    decreasing sorted /\
    (forall n, with_count n sorted = with_count n (labels_count resp)) /\
    length (top_labels resp) = Nat.min 5 (length (labels_count resp)).
Proof.
  exists (sort_desc (labels_count resp)).
  split; [reflexivity|]. split; [apply sort_desc_perm|].
  split; [apply sort_desc_decreasing|].
  split; [intros n; apply sort_desc_stable|].
  unfold top_labels, most_common. rewrite length_take.
  by rewrite (Permutation_length (sort_desc_perm _)).
Qed.

(** X3.  The [byTeam] member counts, for every team, the transfers recorded
    for it, and its counts add up to the number of transfers. *)
Theorem team_transfers_partition_transfers
    (tickets : list transfer_ticket) (team : string) :
  count_of team (team_transfers tickets) = occurrences tt_team team tickets /\
  total (team_transfers tickets) = length tickets /\
  List.NoDup (map fst (team_transfers tickets)).
Proof.
  unfold team_transfers. split; [|split].
  - by rewrite count_of_foldl_incr.
  - by rewrite total_foldl_incr.
  - apply NoDup_keys_foldl_incr. constructor.
Qed.

End TallyFacts.
(** ** The status analysis *)

Section StatusFacts.
Import StatusAnalysis MoreExamples.

Lemma lookup_add_ticket s s' days (a : analysis) :
  lookup_status s (add_ticket s' days a) =
  if String.eqb s' s
  then Some (match lookup_status s a with
             | Some (n, d) => (S n, d + days)
             | None => (1%nat, days)
             end)
  else lookup_status s a.
Proof.
  unfold lookup_status. induction a as [|[s0 [n d]] a IH]; simpl.
  - destruct (String.eqb s' s); reflexivity.
  - destruct (String.eqb s0 s') eqn:E0; simpl.
    + apply String.eqb_eq in E0 as ->. by destruct (String.eqb s' s).
    + destruct (String.eqb s0 s) eqn:E1; simpl; [|exact IH].
      apply String.eqb_eq in E1 as ->.
      by rewrite String.eqb_sym, E0.
Qed.

Lemma lookup_status_totals s tickets : forall a,
  lookup_status s
    (foldl (fun a t => add_ticket (at_status t) (days_in_status t) a) a tickets) =
  match lookup_status s a, tickets_in s tickets with
  | None, [] => None
  | None, group => Some (length group, sum_days group)
  | Some (n, d), group => Some ((n + length group)%nat, d + sum_days group)
  end.
Proof.
  unfold tickets_in, sum_days.
  induction tickets as [|t tickets IH]; intros a; simpl.
  - destruct (lookup_status s a) as [[n d]|]; [|done].
    f_equal. f_equal; [lia | simpl; lia].
  - rewrite IH, lookup_add_ticket.
    destruct (String.eqb (at_status t) s) eqn:E; simpl.
    + destruct (lookup_status s a) as [[n d]|]; simpl;
        f_equal; f_equal; lia.
    + reflexivity.
Qed.

Lemma lookup_status_map {V W} (g : string * V -> string * W) s a :
  (forall e, (g e).1 = e.1) ->
  lookup_status s (map g a) = (fun v => (g (s, v)).2) <$> lookup_status s a.
Proof.
  intros Hg. unfold lookup_status. induction a as [|[s0 v] a IH]; simpl; [done|].
  rewrite Hg. simpl. destruct (String.eqb s0 s) eqn:E; simpl.
  - apply String.eqb_eq in E as ->. reflexivity.
  - exact IH.
Qed.

(** X4.  The status analysis has an entry for a status exactly when some
    active ticket is in it; the entry holds the number of these tickets, the
    sum of their days in status, and the float quotient of the sum by the
    number, rounded to one decimal. *)
Theorem status_analysis_groups_by_status
    (tickets : list active_ticket) (status : string) :
  lookup_status status (status_analysis tickets) =
  match tickets_in status tickets with
  | [] => None
  | group =>
      Some {| sd_count := length group;
              sd_total_days := sum_days group;
              sd_avg_days :=
                Some (round1 (Float.float_div (sum_days group)
                                (Z.of_nat (length group)))) |}
  end.
Proof.
  unfold status_analysis, status_totals.
  rewrite (lookup_status_map with_average) by (by intros [s [n d]]).
  rewrite lookup_status_totals. simpl.
  by destruct (tickets_in status tickets).
Qed.

(** One day over twenty tickets: the float of 1/20 lies above 0.05, so the
    average is 0.1; three days over twenty give 0.1 too, the float of 3/20
    lying below 0.15; one day over four is the tie 0.25, which goes to the
    even tenth 0.2. *)
Example average_follows_the_float_quotient :
  (round1 (Float.float_div 1 20) == 1 # 10)%Q /\
  (round1 (Float.float_div 3 20) == 1 # 10)%Q /\
  (round1 (Float.float_div 1 4) == 2 # 10)%Q /\
  (Float.float_div 1 20 == 3602879701896397 # 72057594037927936)%Q.
Proof. repeat split; vm_compute; reflexivity. Qed.

Lemma add_ticket_counts s days (a : analysis) :
  list_sum (map (fun e => e.2.1) (add_ticket s days a)) =
  S (list_sum (map (fun e => e.2.1) a)).
Proof.
  induction a as [|[s0 [n d]] a IH]; simpl; [reflexivity|].
  destruct (String.eqb s0 s); simpl; [reflexivity|]. rewrite IH. lia.
Qed.

Lemma add_ticket_keys s days (a : analysis) :
  List.NoDup (map fst a) -> List.NoDup (map fst (add_ticket s days a)) /\
  forall k, In k (map fst (add_ticket s days a)) <-> k = s \/ In k (map fst a).
Proof.
  induction a as [|[s0 [n d]] a IH]; simpl; intros Hnd.
  - split; [constructor; [by intros []|constructor] | intuition congruence].
  - inversion Hnd as [|? ? Hnotin Hnd']; subst.
    destruct (IH Hnd') as [IH1 IH2].
    destruct (String.eqb s0 s) eqn:E; simpl.
    + apply String.eqb_eq in E as ->. split; [by constructor|].
      intuition congruence.
    + apply String.eqb_neq in E. split.
      * constructor; [|done]. rewrite IH2. intros [-> | Hin]; done.
      * intros k. rewrite IH2. intuition congruence.
Qed.

(** X5.  Every active ticket is counted under exactly one status: the counts
    of the status analysis add up to the number of active tickets, and no
    status has two entries. *)
Theorem status_analysis_counts_every_ticket (tickets : list active_ticket) :
  list_sum (map (fun e => sd_count e.2) (status_analysis tickets))
    = length tickets /\
  List.NoDup (map fst (status_analysis tickets)).
Proof.
  unfold status_analysis, status_totals.
  assert (Hmap1 : forall a : analysis,
             map (fun e => sd_count e.2) (map with_average a)
             = map (fun e => e.2.1) a).
  { intros a. rewrite map_map. apply map_ext. by intros [s [n d]]. }
  assert (Hmap2 : forall a : analysis,
             map fst (map with_average a) = map fst a).
  { intros a. rewrite map_map. apply map_ext. by intros [s [n d]]. }
  rewrite Hmap1, Hmap2.
  enough (H : forall a : analysis,
             List.NoDup (map fst a) ->
             let out := foldl (fun a t => add_ticket (at_status t)
                                            (days_in_status t) a) a tickets in
             list_sum (map (fun e => e.2.1) out)
               = (list_sum (map (fun e => e.2.1) a) + length tickets)%nat /\
             List.NoDup (map fst out)).
  { apply (H []). constructor. }
  induction tickets as [|t tickets IH]; intros a Hnd; simpl.
  - split; [lia|done].
  - destruct (IH (add_ticket (at_status t) (days_in_status t) a)) as [H1 H2].
    { by apply add_ticket_keys. }
    split; [|exact H2]. rewrite H1, add_ticket_counts. lia.
Qed.

(** X6.  The days in status are the whole days from the last update to the
    reading of the clock, rounded down: negative exactly when the update lies
    after the reading. *)
Theorem days_in_status_are_whole_elapsed_days
    (naive_fromisoformat : string -> option datetime)
    (now : datetime) (updated : string) (updated_dt : datetime) :
  truthy updated = true ->
  naive_fromisoformat (replace_Z updated) = Some updated_dt ->
  let elapsed := (ordinal now - ordinal updated_dt) * US_PER_DAY
                 + (micros now - micros updated_dt) in
  let days := days_in_status_of naive_fromisoformat now updated in
  days * US_PER_DAY <= elapsed < (days + 1) * US_PER_DAY /\
  (days < 0 <-> elapsed < 0).
Proof.
  intros Ht Hp elapsed days. subst days. unfold days_in_status_of.
  rewrite Ht, Hp. unfold delta_days. fold elapsed.
  unfold US_PER_DAY. generalize elapsed. intros e.
  Z.div_mod_to_equations. lia.
Qed.

Lemma days_in_status_are_whole_elapsed_days_witness :
  let elapsed := (ordinal wednesday - 739152) * US_PER_DAY
                 + (micros wednesday - 64800000000) in
  let days := days_in_status_of sample_naive wednesday "2024-09-23T18:00:00Z" in
  days * US_PER_DAY <= elapsed < (days + 1) * US_PER_DAY /\
  (days < 0 <-> elapsed < 0).
Proof.
  apply (days_in_status_are_whole_elapsed_days sample_naive wednesday
           "2024-09-23T18:00:00Z" {| ordinal := 739152; micros := 64800000000 |});
    reflexivity.
Defined.

End StatusFacts.
(** ** More on the paginated fetch *)

Section PaginationFacts.
Import Pagination MoreExamples.
Variables (jql fields : string) (expand : option string) (max_results : Z).

Lemma continues_stops start_at r :
  continues max_results start_at r =
  (status_code r =? 200) && negb (stops max_results start_at r).
Proof.
  unfold continues, stops. rewrite negb_orb. by rewrite andb_assoc.
Qed.

Lemma issues_of_app pages1 pages2 :
  issues_of (pages1 ++ pages2) = issues_of pages1 ++ issues_of pages2.
Proof. unfold issues_of. by rewrite map_app, concat_app. Qed.

(** Pages that make the loop go on, then a successful page that ends it. *)
Lemma fetch_loop_stops_at_last_page pre last post :
  forall log start_at all_issues,
  all_continue max_results start_at pre = true ->
  status_code last = 200 ->
  stops max_results (start_at + max_results * Z.of_nat (length pre)) last = true ->
  fetch_loop jql fields expand max_results (pre ++ last :: post)
    log start_at all_issues =
  Some (all_issues ++ issues_of (pre ++ [last]),
        {| script := post;
           sent := log ++ map (params jql fields expand max_results)
                            (offsets max_results start_at (S (length pre))) |}).
Proof.
  induction pre as [|r pre IH]; intros log start_at all_issues Hgo Hok Hstop.
  - simpl in Hstop. rewrite Z.mul_0_r, Z.add_0_r in Hstop. unfold stops in Hstop.
    simpl. rewrite Hok. simpl. rewrite Hstop.
    unfold issues_of. simpl. by rewrite app_nil_r.
  - simpl in Hgo. apply andb_true_iff in Hgo as [Hr Hgo].
    rewrite continues_stops in Hr. apply andb_true_iff in Hr as [Hrok Hrgo].
    apply negb_true_iff in Hrgo. unfold stops in Hrgo.
    change ((r :: pre) ++ last :: post) with (r :: pre ++ last :: post).
    cbn [fetch_loop]. rewrite Hrok, Hrgo. cbn [negb].
    rewrite (IH _ _ _ Hgo Hok).
    + cbn [app]. rewrite issues_of_cons. cbn [length offsets map].
      by rewrite <- !app_assoc.
    + rewrite <- Hstop. f_equal. cbn [length]. lia.
Qed.

(** Every fetch that returns went through pages that make the loop go on and
    ended on one more answer: a failure, or a successful page that stops. *)
Lemma fetch_loop_shape answers : forall log start_at all_issues res w',
  fetch_loop jql fields expand max_results answers log start_at all_issues
    = Some (res, w') ->
  exists pre last,
    answers = pre ++ last :: script w' /\
    all_continue max_results start_at pre = true /\
    sent w' = log ++ map (params jql fields expand max_results)
                       (offsets max_results start_at (S (length pre))) /\
    ((status_code last <> 200 /\ res = all_issues ++ issues_of pre) \/
     (status_code last = 200 /\
      stops max_results (start_at + max_results * Z.of_nat (length pre)) last
        = true /\
      res = all_issues ++ issues_of (pre ++ [last]))).
Proof.
  induction answers as [|r answers IH]; intros log start_at all_issues res w' H;
    [done|].
  cbn [fetch_loop] in H.
  destruct (status_code r =? 200) eqn:Hok; cbn [negb] in H.
  - destruct (_ || _) eqn:Hstop.
    + injection H as <- <-. exists [], r. simpl.
      split; [done|]. split; [done|]. split; [done|]. right.
      apply Z.eqb_eq in Hok. split; [done|]. split.
      * unfold stops. by rewrite Z.mul_0_r, Z.add_0_r.
      * unfold issues_of. simpl. by rewrite app_nil_r.
    + apply IH in H as (pre & last & -> & Hgo & Hsent & Hres).
      exists (r :: pre), last. split; [done|]. split.
      { simpl. rewrite continues_stops, Hok. unfold stops. rewrite Hstop.
        simpl. exact Hgo. }
      split.
      { rewrite Hsent. cbn [length offsets map]. by rewrite <- app_assoc. }
      replace (start_at + max_results * Z.of_nat (length (r :: pre)))
        with (start_at + max_results + max_results * Z.of_nat (length pre))
        by (cbn [length]; lia).
      destruct Hres as [[Hbad ->] | (Hlast & Hstops & ->)].
      * left. split; [done|]. rewrite issues_of_cons. by rewrite <- app_assoc.
      * right. split; [done|]. split; [done|].
        cbn [app]. rewrite issues_of_cons. by rewrite <- app_assoc.
  - injection H as <- <-. exists [], r. simpl.
    split; [done|]. split; [done|]. split; [done|]. left.
    apply Z.eqb_neq in Hok. split; [done|]. by rewrite app_nil_r.
Qed.

End PaginationFacts.

(** X7.  When the pages before it all make the loop go on, a successful page
    that is shorter than the page size, or whose offset reaches the reported
    total, ends the fetch, which returns the issues of all these pages in
    order, one request a page at offsets 0, [max_results], ... *)
Theorem fetch_returns_all_pages
    (jql fields : string) (expand : option string) (max_results : Z)
    (w : world) (pre : list response) (last : response) (post : list response) :
  script w = pre ++ last :: post ->
  all_continue max_results 0 pre = true ->
  status_code last = 200 ->
  Pagination.stops max_results (max_results * Z.of_nat (length pre)) last = true ->
  fetch_jira_data jql fields expand max_results w =
  Some (issues_of (pre ++ [last]),
        {| script := post;
           sent := sent w ++ map (params jql fields expand max_results)
                               (offsets max_results 0 (S (length pre))) |}).
Proof.
  intros Hscript Hgo Hok Hstop. unfold fetch_jira_data. rewrite Hscript.
  by rewrite (fetch_loop_stops_at_last_page _ _ _ _ _ _ _ _ _ _ Hgo Hok Hstop).
Qed.

Lemma fetch_returns_all_pages_witness :
  fetch_jira_data "project = SE" default_fields None 2
    {| script := MoreExamples.three_pages; sent := [] |} =
  Some (issues_of ([page 200 "SE-20" 2 5; page 200 "SE-21" 2 5]
                   ++ [page 200 "SE-22" 1 5]),
        {| script := [];
           sent := [] ++ map (params "project = SE" default_fields None 2)
                           (offsets 2 0 3) |}).
Proof.
  apply (fetch_returns_all_pages "project = SE" default_fields None 2
           {| script := MoreExamples.three_pages; sent := [] |}
           [page 200 "SE-20" 2 5; page 200 "SE-21" 2 5]
           (page 200 "SE-22" 1 5) []); reflexivity.
Defined.

(** X8.  Every fetch that returns has consumed a run of pages that make the
    loop go on and one more answer, and has sent one request for each at
    offsets 0, [max_results], ...; it returns the issues of the pages, with
    those of the last answer when that is a success and without them when it
    is a failure. *)
Theorem fetch_result_shape
    (jql fields : string) (expand : option string) (max_results : Z)
    (w w' : world) (res : list issue) :
  fetch_jira_data jql fields expand max_results w = Some (res, w') ->
  exists pre last,
    script w = pre ++ last :: script w' /\
    all_continue max_results 0 pre = true /\
    sent w' = sent w ++ map (params jql fields expand max_results)
                          (offsets max_results 0 (S (length pre))) /\
    ((status_code last <> 200 /\ res = issues_of pre) \/
     (status_code last = 200 /\
      Pagination.stops max_results (max_results * Z.of_nat (length pre)) last
        = true /\
      res = issues_of (pre ++ [last]))).
Proof.
  unfold fetch_jira_data. intros H.
  apply fetch_loop_shape in H as (pre & last & H1 & H2 & H3 & H4).
  exists pre, last. done.
Qed.

Lemma fetch_result_shape_witness :
  exists pre last,
    three_pages_second_fails = pre ++ last :: [page 200 "SE-12" 2 6] /\
    all_continue 2 0 pre = true /\
    map (params "project = SE" default_fields None 2) (offsets 2 0 2)
      = [] ++ map (params "project = SE" default_fields None 2)
                (offsets 2 0 (S (length pre))) /\
    ((status_code last <> 200 /\
      replicate 2 (ticket "SE-10" "bulk" id) = issues_of pre) \/
     (status_code last = 200 /\
      Pagination.stops 2 (2 * Z.of_nat (length pre)) last = true /\
      replicate 2 (ticket "SE-10" "bulk" id) = issues_of (pre ++ [last]))).
Proof.
  apply (fetch_result_shape "project = SE" default_fields None 2
           {| script := three_pages_second_fails; sent := [] |}
           {| script := [page 200 "SE-12" 2 6];
              sent := map (params "project = SE" default_fields None 2)
                        (offsets 2 0 2) |}
           (replicate 2 (ticket "SE-10" "bulk" id))).
  reflexivity.
Defined.

(** A successful first page that stops the loop is the whole result. *)
Lemma fetch_single_page jql fields expand max_results w r rest :
  script w = r :: rest ->
  status_code r = 200 ->
  Pagination.stops max_results 0 r = true ->
  fetch_jira_data jql fields expand max_results w =
  Some (default [] (resp_issues r),
        {| script := rest;
           sent := sent w ++ [params jql fields expand max_results 0] |}).
Proof.
  intros Hscript Hok Hstop. unfold fetch_jira_data. rewrite Hscript.
  assert (Hstop' : Pagination.stops max_results
                     (0 + max_results * Z.of_nat (length (@nil response))) r
                   = true).
  { simpl. by rewrite Z.mul_0_r. }
  etrans; [exact (fetch_loop_stops_at_last_page jql fields expand max_results
                    [] r rest (sent w) 0 [] eq_refl Hok Hstop')|].
  unfold issues_of. simpl. by rewrite app_nil_r.
Qed.

(** X9.  A successful answer that reports no total ends the fetch at once,
    however full the page: the missing total counts as 0, which every offset
    reaches. *)
Theorem fetch_stops_when_total_is_missing
    (jql fields : string) (expand : option string) (max_results : Z)
    (w : world) (r : response) (rest : list response) :
  script w = r :: rest ->
  status_code r = 200 ->
  resp_total r = None ->
  0 <= max_results ->
  fetch_jira_data jql fields expand max_results w =
  Some (default [] (resp_issues r),
        {| script := rest;
           sent := sent w ++ [params jql fields expand max_results 0] |}).
Proof.
  intros Hscript Hok Htotal Hmax.
  apply fetch_single_page; [done | done |].
  unfold Pagination.stops. rewrite Htotal. simpl.
  apply orb_true_iff. right. apply Z.geb_le. lia.
Qed.

Lemma fetch_stops_when_total_is_missing_witness :
  fetch_jira_data "project = SE" default_fields None 2
    {| script := [MoreExamples.page_without_total; page 200 "SE-31" 2 4];
       sent := [] |} =
  Some (default [] (resp_issues MoreExamples.page_without_total),
        {| script := [page 200 "SE-31" 2 4];
           sent := [] ++ [params "project = SE" default_fields None 2 0] |}).
Proof.
  apply (fetch_stops_when_total_is_missing "project = SE" default_fields None 2
           {| script := [MoreExamples.page_without_total; page 200 "SE-31" 2 4];
              sent := [] |}
           MoreExamples.page_without_total [page 200 "SE-31" 2 4]);
    [reflexivity | reflexivity | reflexivity | lia].
Defined.

(** X10.  With a page size above 100 the request asks for 100 issues only,
    so a tracker that honours it returns a page shorter than [max_results]:
    the fetch ends after its first request, whatever the total. *)
Theorem fetch_above_100_sends_one_request
    (jql fields : string) (expand : option string) (max_results : Z)
    (w : world) (r : response) (rest : list response) :
  script w = r :: rest ->
  status_code r = 200 ->
  100 < max_results ->
  Z.of_nat (length (default [] (resp_issues r)))
    <= req_maxResults (params jql fields expand max_results 0) ->
  req_maxResults (params jql fields expand max_results 0) = 100 /\
  fetch_jira_data jql fields expand max_results w =
  Some (default [] (resp_issues r),
        {| script := rest;
           sent := sent w ++ [params jql fields expand max_results 0] |}).
Proof.
  intros Hscript Hok Hmax Hlen. simpl in *.
  split; [lia|].
  apply fetch_single_page; [done | done |].
  unfold Pagination.stops. apply orb_true_iff. left. apply Z.ltb_lt. lia.
Qed.

Lemma fetch_above_100_sends_one_request_witness :
  req_maxResults (params "project = SE" default_fields None 250 0) = 100 /\
  fetch_jira_data "project = SE" default_fields None 250
    {| script := [page 200 "SE-40" 100 900; page 200 "SE-41" 100 900];
       sent := [] |} =
  Some (default [] (resp_issues (page 200 "SE-40" 100 900)),
        {| script := [page 200 "SE-41" 100 900];
           sent := [] ++ [params "project = SE" default_fields None 250 0] |}).
Proof.
  apply (fetch_above_100_sends_one_request "project = SE" default_fields None 250
           {| script := [page 200 "SE-40" 100 900; page 200 "SE-41" 100 900];
              sent := [] |}
           (page 200 "SE-40" 100 900) [page 200 "SE-41" 100 900]);
    [reflexivity | reflexivity | lia | vm_compute; discriminate].
Defined.
(** ** More on the merge of the resolved-ticket queries *)

Section MergeFacts.

Lemma with_key_in k l i : In i (Spec.with_key k l) <-> In i l /\ key i = k.
Proof. unfold Spec.with_key. by rewrite filter_In, String.eqb_eq. Qed.

(** A list with at most one issue for each identifier has no identifier
    twice. *)
Lemma NoDup_keys_of_with_key (l : list issue) :
  (forall k, (length (Spec.with_key k l) <= 1)%nat) -> List.NoDup (map key l).
Proof.
  unfold Spec.with_key. induction l as [|x l IH]; intros H; [constructor|].
  simpl. constructor.
  - intros Hin. apply in_map_iff in Hin as (y & Hy & Hin).
    specialize (H (key x)). simpl in H. rewrite String.eqb_refl in H. simpl in H.
    assert (Hy' : In y (List.filter (fun i => String.eqb (key i) (key x)) l)).
    { apply filter_In. split; [done|]. by apply String.eqb_eq. }
    destruct (List.filter _ l); [done|]. simpl in H. lia.
  - apply IH. intros k. specialize (H k). simpl in H.
    destruct (String.eqb (key x) k); simpl in H; lia.
Qed.

Lemma add_resolved_sublist acc seen i :
  sublist acc.2 seen -> sublist (add_resolved acc i).2 (seen ++ [i]).
Proof.
  intros H. unfold add_resolved. destruct (decide (key i ∈ acc.1)); simpl.
  - apply sublist_inserts_r. exact H.
  - by apply sublist_app.
Qed.

Lemma merge_response_sublist resp : forall acc seen,
  sublist acc.2 seen ->
  sublist (merge_response acc resp).2 (seen ++ resp).
Proof.
  unfold merge_response.
  induction resp as [|i resp IH]; intros acc seen H; simpl.
  - by rewrite app_nil_r.
  - replace (seen ++ i :: resp) with ((seen ++ [i]) ++ resp)
      by by rewrite <- app_assoc.
    apply IH. by apply add_resolved_sublist.
Qed.

End MergeFacts.

(** The identifiers of the merged list: each once, and those of the two
    answers. *)
Lemma merge_has_each_identifier_once_aux (resp1 resp2 : list issue) :
  List.NoDup (map key (merge_resolved resp1 resp2)) /\
  (forall k, In k (map key (merge_resolved resp1 resp2)) <->
             In k (map key (resp1 ++ resp2))).
Proof.
  split.
  - apply NoDup_keys_of_with_key. intros k. rewrite merge_resolved_with_key.
    destruct (Spec.first_with_key k (resp1 ++ resp2)); simpl; lia.
  - intros k. split.
    + intros Hin. apply in_map_iff in Hin as (i & <- & Hin).
      assert (Hi : In i (Spec.with_key (key i) (merge_resolved resp1 resp2)))
        by by apply with_key_in.
      rewrite merge_resolved_with_key in Hi.
      destruct (Spec.first_with_key (key i) (resp1 ++ resp2)) eqn:E; [|done].
      by apply first_with_key_Some_in in E.
    + intros Hin. apply first_with_key_in in Hin as (i & Hi).
      assert (Hw : In i (Spec.with_key k (merge_resolved resp1 resp2))).
      { rewrite merge_resolved_with_key, Hi. by left. }
      apply with_key_in in Hw as [Hw <-]. by apply in_map.
Qed.

(** X11.  The merged list has no identifier twice, holds exactly the
    identifiers of the two answers, and keeps the issues in the order of the
    answers, the first before the second. *)
Theorem merge_has_each_identifier_once (resp1 resp2 : list issue) :
  List.NoDup (map key (merge_resolved resp1 resp2)) /\
  (forall k, In k (map key (merge_resolved resp1 resp2)) <->
             In k (map key (resp1 ++ resp2))) /\
  sublist (merge_resolved resp1 resp2) (resp1 ++ resp2).
Proof.
  destruct (merge_has_each_identifier_once_aux resp1 resp2) as [H1 H2].
  split; [exact H1|]. split; [exact H2|].
  unfold merge_resolved.
  apply merge_response_sublist.
  apply (merge_response_sublist resp1 (∅, []) []). simpl. constructor.
Qed.

(** X12.  When no identifier occurs twice in the two answers, nothing is
    dropped: the merged list is the first answer followed by the second. *)
Theorem merge_of_disjoint_answers_is_concatenation (resp1 resp2 : list issue) :
  List.NoDup (map key (resp1 ++ resp2)) ->
  merge_resolved resp1 resp2 = resp1 ++ resp2.
Proof.
  intros Hnd. unfold merge_resolved.
  enough (H : forall resp acc seen,
             Spec.merged_so_far acc seen -> List.NoDup (map key (seen ++ resp)) ->
             (merge_response acc resp).2 = acc.2 ++ resp).
  { rewrite (H resp2 (merge_response (∅, []) resp1) resp1).
    - rewrite (H resp1 (∅, []) []); [done | apply merged_so_far_start |].
      simpl. rewrite map_app in Hnd. by apply NoDup_app_remove_r in Hnd.
    - apply (merge_response_inv resp1 (∅, []) []), merged_so_far_start.
    - done. }
  clear. unfold merge_response.
  induction resp as [|i resp IH]; intros acc seen Hinv Hnd; simpl.
  - by rewrite app_nil_r.
  - replace (seen ++ i :: resp) with ((seen ++ [i]) ++ resp) in Hnd
      by by rewrite <- app_assoc.
    rewrite (IH _ (seen ++ [i])); [|by apply add_resolved_inv|done].
    unfold add_resolved. destruct (decide (key i ∈ acc.1)) as [Hin|Hnew]; simpl.
    + exfalso. apply Hinv in Hin.
      rewrite map_app, map_app in Hnd. simpl in Hnd.
      apply NoDup_app_remove_r in Hnd.
      apply NoDup_remove_2 in Hnd. rewrite app_nil_r in Hnd. done.
    + by rewrite <- app_assoc.
Qed.

Lemma merge_of_disjoint_answers_is_concatenation_witness :
  merge_resolved [ticket "SE-1" "printer" id] [ticket "SE-3" "laptop" id]
  = [ticket "SE-1" "printer" id] ++ [ticket "SE-3" "laptop" id].
Proof.
  apply (merge_of_disjoint_answers_is_concatenation
           [ticket "SE-1" "printer" id] [ticket "SE-3" "laptop" id]).
  simpl. repeat constructor; simpl; intuition discriminate.
Defined.
(** ** More on the resolution time *)

Section ResolutionFacts.
Variable fromisoformat : string -> option instant.



Lemma try_days_Some created stamp d :
  try_days fromisoformat created stamp = Some d ->
  exists a b,
    fromisoformat (replace_Z created) = Some a /\
    fromisoformat (replace_Z stamp) = Some b /\
    aware b = aware a /\ d = us_to_days (epoch_us b - epoch_us a).
Proof.
  unfold try_days, delta_us.
  destruct (fromisoformat (replace_Z created)) as [a|]; [|done].
  destruct (fromisoformat (replace_Z stamp)) as [b|]; [|done]. simpl.
  destruct (Bool.eqb (aware b) (aware a)) eqn:E; [|done].
  apply Bool.eqb_prop in E. intros [= <-]. by exists a, b.
Qed.

End ResolutionFacts.



(** X14.  A duration other than zero only comes from a creation timestamp
    and a resolution timestamp that both parse, with the same awareness: the
    resolution timestamp is the resolved field when it is there, and
    otherwise the one found in the changelog.  On every other path the
    duration is zero. *)
Theorem resolution_days_zero_unless_both_parse
    (fromisoformat : string -> option instant) (i : issue) :
  let created := default "" (created (fields_of i)) in
  let resolved := default "" (resolved (fields_of i)) in
  resolution_days_of fromisoformat i = 0%Q \/
  exists stamp a b,
    truthy created = true /\
    ((truthy resolved = true /\ stamp = resolved) \/
     (truthy resolved = false /\ truthy stamp = true /\
      find_resolution_date_in_changelog i = Some stamp)) /\
    fromisoformat (replace_Z created) = Some a /\
    fromisoformat (replace_Z stamp) = Some b /\
    aware b = aware a /\
    resolution_days_of fromisoformat i = us_to_days (epoch_us b - epoch_us a).
Proof.
  intros created resolved. unfold resolution_days_of. fold created resolved.
  destruct (truthy created) eqn:Hc; [|by left].
  destruct (truthy resolved) eqn:Hr; simpl.
  - destruct (try_days fromisoformat created resolved) as [d|] eqn:E; [|by left].
    apply try_days_Some in E as (a & b & Ha & Hb & Hab & ->).
    right. exists resolved, a, b. simpl. intuition.
  - destruct (find_resolution_date_in_changelog i) as [stamp|] eqn:Hf; [|by left].
    destruct (truthy stamp) eqn:Hs; [|by left].
    destruct (try_days fromisoformat created stamp) as [d|] eqn:E; [|by left].
    apply try_days_Some in E as (a & b & Ha & Hb & Hab & ->).
    right. exists stamp, a, b. simpl. intuition.
Qed.
(** ** More on the windows and the handler *)

(** X15.  Unless the date arithmetic overflows at the end of year 9999, the
    window of [/test-dates] runs from a Monday to the Sunday after it and
    holds today: it is the current calendar week. *)
Theorem test_dates_window_is_current_week (today : datetime) :
  1 <= ordinal today <= MAXORD - 6 ->
  exists week_start week_end,
    test_dates_window today = Some (week_start, week_end) /\
    weekday week_start = 0 /\ weekday week_end = 6 /\
    ordinal week_end = ordinal week_start + 6 /\
    ordinal week_start <= ordinal today <= ordinal week_end /\
    (calculated_week_start <$> test_dates today) = Some (strftime_ymd week_start) /\
    (calculated_week_end <$> test_dates today) = Some (strftime_ymd week_end).
Proof.
  intros Hrange. eexists _, _.
  split; [by apply test_dates_window_value|].
  unfold test_dates. rewrite test_dates_window_value by done.
  pose proof (weekday_range today) as Hwd.
  unfold weekday in *. simpl.
  repeat split; try done; Z.div_mod_to_equations; lia.
Qed.

Lemma test_dates_window_is_current_week_witness :
  exists week_start week_end,
    test_dates_window wednesday = Some (week_start, week_end) /\
    weekday week_start = 0 /\ weekday week_end = 6 /\
    ordinal week_end = ordinal week_start + 6 /\
    ordinal week_start <= ordinal wednesday <= ordinal week_end /\
    (calculated_week_start <$> test_dates wednesday)
      = Some (strftime_ymd week_start) /\
    (calculated_week_end <$> test_dates wednesday)
      = Some (strftime_ymd week_end).
Proof.
  apply (test_dates_window_is_current_week wednesday).
  unfold MAXORD. simpl. lia.
Defined.

Section HandlerFacts.
Variable fromisoformat : string -> option instant.

Lemma metrics_window_first_week today :
  1 <= ordinal today < 8 -> metrics_window today = None.
Proof.
  intros Hrange. pose proof (weekday_range today) as Hwd.
  assert (Hmon : ordinal today - weekday today = 1).
  { unfold weekday in *. Z.div_mod_to_equations. lia. }
  destruct (metrics_window today) as [[ws we]|] eqn:E; [exfalso|done].
  unfold metrics_window, minus_days, plus_days, MINORD in E. simpl in E.
  destruct (_ && _) eqn:E1 in E; [simpl in E|done].
  destruct (_ && _) eqn:E2 in E; [|done].
  apply andb_true_iff in E2 as [E2 _]. apply Z.leb_le in E2. lia.
Qed.

(** A fetch whose first answer is a failure returns nothing, after one
    request. *)
Lemma fetch_first_answer_fails jql fields expand max_results bad rest log :
  status_code bad <> 200 ->
  fetch_jira_data jql fields expand max_results
    {| script := bad :: rest; sent := log |} =
  Some ([], {| script := rest;
               sent := log ++ [params jql fields expand max_results 0] |}).
Proof.
  intros Hbad.
  exact (fetch_loop_stops_at_failure jql fields expand max_results
           [] bad rest log 0 [] eq_refl Hbad).
Qed.

End HandlerFacts.

(** X16.  When the clock reads a day of the first week of year 1, the date
    arithmetic overflows: the handler answers with the error document, and
    has sent nothing to the tracker. *)
Theorem metrics_date_overflow_gives_error_document
    (fromisoformat : string -> option instant) (today : datetime) (w : world) :
  1 <= ordinal today < 8 ->
  metrics_window today = None /\
  get_metrics fromisoformat today w = Some (Failure, w).
Proof.
  intros Hrange. unfold get_metrics.
  by rewrite metrics_window_first_week.
Qed.

Lemma metrics_date_overflow_gives_error_document_witness :
  metrics_window {| ordinal := 3; micros := 0 |} = None /\
  get_metrics sample_clock {| ordinal := 3; micros := 0 |} scenario
    = Some (Failure, scenario).
Proof.
  apply (metrics_date_overflow_gives_error_document sample_clock
           {| ordinal := 3; micros := 0 |} scenario).
  simpl. lia.
Defined.

(** X17.  When the tracker fails every request, the handler still answers
    with a report: it sends one request for each of its eight queries and
    reports zero everywhere, over the window of the previous week. *)
Theorem tracker_down_gives_report_of_zeros
    (fromisoformat : string -> option instant) (today : datetime)
    (bads rest : list response) (log : list request) :
  8 <= ordinal today <= MAXORD ->
  length bads = 8%nat ->
  Forall (fun r => status_code r <> 200) bads ->
  exists week_start week_end new,
    metrics_window today = Some (week_start, week_end) /\
    length new = 8%nat /\
    map req_jql new = window_queries (strftime_ymd week_start)
                                     (strftime_ymd week_end) /\
    get_metrics fromisoformat today {| script := bads ++ rest; sent := log |} =
    Some (Success
            {| newTicketsCount := 0;
               resolvedTicketsCount := 0;
               averageResolutionDays := 0;
               incidentsCount := 0;
               transfersCount := 0;
               speedBuckets := no_buckets;
               weekRange := strftime_ymd week_start +:+ " to "
                            +:+ strftime_ymd week_end;
               transfers_details := [] |},
          {| script := rest; sent := log ++ new |}).
Proof.
  intros Hrange Hlen Hbad.
  do 9 (destruct bads as [|? bads]; try discriminate Hlen).
  repeat match goal with
         | H : Forall _ (_ :: _) |- _ => apply Forall_cons in H as [? H]
         end.
  exists {| ordinal := ordinal today - (7 + weekday today);
            micros := micros today |},
         {| ordinal := ordinal today - (7 + weekday today) + 6;
            micros := micros today |}.
  unfold get_metrics. rewrite metrics_window_value by done.
  cbv beta iota zeta.
  set (ws := strftime_ymd _). set (we := strftime_ymd _). clearbody ws we.
  exists
    ([params (new_tickets_jql ws we) default_fields None 100 0;
      params (resolved_jql1 ws we)
        "key,summary,status,created,resolved,updated" (Some "changelog") 100 0;
      params (resolved_jql2 ws we)
        "key,summary,status,created,resolved,updated" (Some "changelog") 100 0;
      params (active_jql ws we) default_fields None 100 0]
     ++ map (fun team =>
               params (transfer_jql ws we team)
                 "key,summary,status,created,updated,description"
                 (Some "changelog") 50 0) ["EIM"; "ENGGMNT"; "AM"; "MRKT"]).
  split; [reflexivity|]. split; [reflexivity|]. split; [reflexivity|].
  unfold collect, io_bind at 1 2. cbn [app].
  rewrite fetch_first_answer_fails by done.
  change (process_new_tickets []) with ([] : list new_ticket, [] : list new_ticket).
  cbv iota beta. cbn [io_for]. unfold fetch_resolved, io_bind, io_ret.
  rewrite fetch_first_answer_fails by done.
  rewrite fetch_first_answer_fails by done.
  rewrite fetch_first_answer_fails by done.
  unfold teams. cbn [io_for]. unfold fetch_transfers, io_bind, io_ret.
  rewrite fetch_first_answer_fails by done. cbn [foldl].
  rewrite fetch_first_answer_fails by done. cbn [foldl].
  rewrite fetch_first_answer_fails by done. cbn [foldl].
  rewrite fetch_first_answer_fails by done. cbn [foldl].
  rewrite <- !app_assoc. reflexivity.
Qed.

Lemma tracker_down_gives_report_of_zeros_witness :
  exists week_start week_end new,
    metrics_window wednesday = Some (week_start, week_end) /\
    length new = 8%nat /\
    map req_jql new = window_queries (strftime_ymd week_start)
                                     (strftime_ymd week_end) /\
    get_metrics sample_clock wednesday
      {| script := replicate 8 (page 503 "" 0 0) ++ []; sent := [] |} =
    Some (Success
            {| newTicketsCount := 0;
               resolvedTicketsCount := 0;
               averageResolutionDays := 0;
               incidentsCount := 0;
               transfersCount := 0;
               speedBuckets := no_buckets;
               weekRange := strftime_ymd week_start +:+ " to "
                            +:+ strftime_ymd week_end;
               transfers_details := [] |},
          {| script := []; sent := [] ++ new |}).
Proof.
  apply (tracker_down_gives_report_of_zeros sample_clock wednesday
           (replicate 8 (page 503 "" 0 0)) [] []).
  - unfold MAXORD. simpl. lia.
  - reflexivity.
  - repeat constructor; simpl; lia.
Defined.
(** ** The order of the requests *)

Section RunFacts.
Import Log.

Lemma in_runs_app qs1 qs2 new1 new2 :
  in_runs qs1 new1 -> in_runs qs2 new2 -> in_runs (qs1 ++ qs2) (new1 ++ new2).
Proof.
  intros (runs1 & -> & H1) (runs2 & -> & H2).
  exists (runs1 ++ runs2). split; [by rewrite concat_app|].
  by apply Forall2_app.
Qed.

Lemma sends_runs_ret {A} (a : A) : sends_runs [] (io_ret a).
Proof.
  intros w a' w' [= <- <-]. exists []. split; [by rewrite app_nil_r|].
  exists []. split; [done|constructor].
Qed.

Lemma sends_runs_bind qs1 qs2 {A B} (c : io A) (k : A -> io B) :
  sends_runs qs1 c -> (forall a, sends_runs qs2 (k a)) ->
  sends_runs (qs1 ++ qs2) (io_bind c k).
Proof.
  intros Hc Hk w b w2 H. unfold io_bind in H.
  destruct (c w) as [[a w1]|] eqn:E; [|done].
  destruct (Hc _ _ _ E) as (new1 & E1 & H1).
  destruct (Hk a _ _ _ H) as (new2 & E2 & H2).
  exists (new1 ++ new2). rewrite E2, E1, <- app_assoc.
  split; [done|]. by apply in_runs_app.
Qed.

Lemma sends_runs_for {A S} (q : A -> string) (body : S -> A -> io S) xs :
  (forall s x, sends_runs [q x] (body s x)) ->
  forall s, sends_runs (map q xs) (io_for xs body s).
Proof.
  intros Hbody. induction xs as [|x xs IH]; intros s; simpl.
  - apply sends_runs_ret.
  - apply (sends_runs_bind [q x] (map q xs)); [apply Hbody|apply IH].
Qed.

(** A fetch sends one run of requests, all for its query. *)
Lemma sends_runs_fetch jql fields expand max_results :
  sends_runs [jql] (fetch_jira_data jql fields expand max_results).
Proof.
  intros w res w' H. unfold fetch_jira_data in H.
  apply fetch_loop_shape in H as (pre & last & _ & _ & Hsent & _).
  set (run := map (params jql fields expand max_results)
                (offsets max_results 0 (S (length pre)))) in *.
  assert (Hrun : Forall (fun r => req_jql r = jql) run).
  { apply List.Forall_forall. intros q Hq.
    apply in_map_iff in Hq as (o & <- & _). reflexivity. }
  assert (Hne : run <> []) by done.
  clearbody run. exists run. split; [exact Hsent|].
  exists [run]. split; [simpl; by rewrite app_nil_r|].
  constructor; [by split|constructor].
Qed.

Lemma sends_runs_fetch_then {A} jql fields expand max_results
    (k : list issue -> A) :
  sends_runs [jql]
    (io_bind (fetch_jira_data jql fields expand max_results)
       (fun resp => io_ret (k resp))).
Proof.
  apply (sends_runs_bind [jql] []); [apply sends_runs_fetch|].
  intros resp. apply sends_runs_ret.
Qed.

Lemma sends_runs_collect fromisoformat ws we :
  sends_runs (window_queries ws we) (collect fromisoformat ws we).
Proof.
  unfold collect, window_queries.
  apply (sends_runs_bind [new_tickets_jql ws we]
           ([resolved_jql1 ws we; resolved_jql2 ws we; active_jql ws we]
            ++ map (transfer_jql ws we) teams)).
  { apply sends_runs_fetch. }
  intros created. destruct (process_new_tickets created) as [new incidents].
  apply (sends_runs_bind [resolved_jql1 ws we; resolved_jql2 ws we]
           ([active_jql ws we] ++ map (transfer_jql ws we) teams)).
  { apply (sends_runs_for id). intros acc jql. apply sends_runs_fetch_then. }
  intros merged.
  apply (sends_runs_bind [active_jql ws we] (map (transfer_jql ws we) teams)).
  { apply sends_runs_fetch. }
  intros active.
  rewrite <- (app_nil_r (map (transfer_jql ws we) teams)).
  apply sends_runs_bind; [|intros; apply sends_runs_ret].
  apply (sends_runs_for (transfer_jql ws we)).
  intros acc team. apply sends_runs_fetch_then.
Qed.

Lemma in_runs_length qs new : in_runs qs new -> (length qs <= length new)%nat.
Proof.
  intros (runs & -> & H). induction H as [|q run qs runs [Hne _] _ IH]; simpl.
  - lia.
  - rewrite length_app. destruct run; [done|]. simpl. lia.
Qed.

End RunFacts.

(** X18.  A run of the handler that ends in a report has sent every query
    of the window, in the order of the code and each as one run of requests:
    the new tickets, the two resolved queries, the active tickets, then the
    four teams; so at least eight requests. *)
Theorem metrics_sends_each_query_in_order
    (fromisoformat : string -> option instant) (today : datetime)
    (w w' : world) (r : report) :
  get_metrics fromisoformat today w = Some (Success r, w') ->
  exists week_start week_end new,
    metrics_window today = Some (week_start, week_end) /\
    sent w' = sent w ++ new /\
    Log.in_runs (window_queries (strftime_ymd week_start)
                                (strftime_ymd week_end)) new /\
    (8 <= length new)%nat.
Proof.
  intros H. apply get_metrics_success in H as (ws & we & m & Hw & Hc & _).
  destruct (sends_runs_collect _ _ _ _ _ _ Hc) as (new & Hsent & Hruns).
  exists ws, we, new. split; [done|]. split; [done|]. split; [done|].
  by apply in_runs_length in Hruns.
Qed.

Lemma metrics_sends_each_query_in_order_witness :
  exists week_start week_end new,
    metrics_window wednesday = Some (week_start, week_end) /\
    sent MoreExamples.scenario_after = sent scenario ++ new /\
    Log.in_runs (window_queries (strftime_ymd week_start)
                                (strftime_ymd week_end)) new /\
    (8 <= length new)%nat.
Proof.
  apply (metrics_sends_each_query_in_order sample_clock wednesday scenario
           MoreExamples.scenario_after MoreExamples.scenario_report).
  vm_compute. reflexivity.
Defined.
(** ** More on the report *)

Section ReportFacts.
Local Open Scope Q_scope.

Lemma round1_nonneg x : 0 <= x -> 0 <= round1 x.
Proof.
  intros Hx. unfold round1.
  assert (Hf : (0 <= Qfloor (x * inject_Z 10))%Z).
  { change 0%Z with (Qfloor 0). apply Qfloor_resp_le.
    change (inject_Z 10) with (10 # 1). lra. }
  set (f := Qfloor (x * inject_Z 10)) in *.
  assert (Hk : forall k : Z, (0 <= k)%Z -> 0 <= inject_Z k / inject_Z 10).
  { intros k Hk. apply Qle_shift_div_l; [reflexivity|].
    rewrite Qmult_0_l. change 0 with (inject_Z 0). by rewrite <- Zle_Qle. }
  destruct (Qltb _ _); [by apply Hk|].
  destruct (Qltb _ _); [apply Hk; lia|].
  destruct (Z.even f); apply Hk; lia.
Qed.

Lemma fold_right_Qplus_nonneg ts :
  Forall (fun t => 0 <= t) ts -> 0 <= fold_right Qplus 0 ts.
Proof.
  induction 1 as [|t ts Ht _ IH]; simpl; lra.
Qed.

Lemma avg_resolution_nonneg ts :
  Forall (fun t => 0 <= t) ts -> 0 <= avg_resolution ts.
Proof.
  intros Hts. unfold avg_resolution. destruct ts as [|t ts]; [lra|].
  apply round1_nonneg. rewrite Qsum_fold_right.
  apply Qle_shift_div_l.
  - change 0 with (inject_Z 0). rewrite <- Zlt_Qlt. simpl. lia.
  - rewrite Qmult_0_l. by apply fold_right_Qplus_nonneg.
Qed.

Lemma resolution_times_nonneg resolved :
  Forall (fun t => 0 <= t) (resolution_times resolved).
Proof.
  unfold resolution_times. apply List.Forall_forall. intros t Ht.
  apply filter_In in Ht as [_ Ht]. by apply Qle_bool_iff.
Qed.

End ReportFacts.

(** X19.  The reported average is never negative, and the transfer details
    are the first five transfers, or all of them when there are fewer. *)
Theorem report_average_and_details_are_bounded (m : storage) (ws we : string) :
  let r := build_report m ws we in
  (0 <= averageResolutionDays r)%Q /\
  transfers_details r = take 5 (transfer_tickets m) /\
  length (transfers_details r) = Nat.min 5 (transfersCount r).
Proof.
  intros r. subst r. unfold build_report. simpl.
  split; [apply avg_resolution_nonneg, resolution_times_nonneg|].
  assert (H : take 5 (take 6 (transfer_tickets m)) = take 5 (transfer_tickets m)).
  { rewrite take_take. f_equal. }
  rewrite H. split; [done|]. by rewrite length_take.
Qed.

(** ** More on the transfers *)

Section TransferFacts.
Import Log.

Lemma NoDup_snoc {A} (l : list A) x :
  List.NoDup l -> ~ In x l -> List.NoDup (l ++ [x]).
Proof.
  induction l as [|y l IH]; simpl; intros Hnd Hx.
  - constructor; [by intros []|constructor].
  - apply NoDup_cons_iff in Hnd as [Hy Hnd].
    apply NoDup_cons_iff. split; [|apply IH; tauto].
    rewrite in_app_iff. simpl. intuition congruence.
Qed.

Lemma add_transfer_cases team acc i :
  add_transfer team acc i = acc \/
  exists t,
    add_transfer team acc i = acc ++ [t] /\
    tt_key t = key i /\ tt_team t = team /\
    ~ In (key i) (map tt_key acc) /\
    is_se_transfer (default "" (summary (fields_of i)))
                   (default "" (description (fields_of i))) = true.
Proof.
  unfold add_transfer.
  destruct (is_se_transfer _ _) eqn:Ht; [|by left].
  destruct (str_in (key i) (map tt_key acc)) eqn:Hin; [by left|].
  right. eexists. split; [reflexivity|]. simpl.
  split; [done|]. split; [done|]. split; [|done].
  intros H. apply str_in_iff in H. congruence.
Qed.

Lemma add_transfer_ok team acc i :
  In team teams -> transfers_ok acc -> transfers_ok (add_transfer team acc i).
Proof.
  intros Hteam [Hnd Hts].
  destruct (add_transfer_cases team acc i)
    as [-> | (t & -> & Hkey & Htt & Hnew & _)]; [done|].
  split.
  - rewrite map_app. simpl. apply NoDup_snoc; [done|]. by rewrite Hkey.
  - apply Forall_app. split; [done|]. constructor; [|constructor].
    by rewrite Htt.
Qed.

Lemma foldl_add_transfer_ok team resp : forall acc,
  In team teams -> transfers_ok acc ->
  transfers_ok (foldl (add_transfer team) acc resp).
Proof.
  induction resp as [|i resp IH]; intros acc Hteam Hacc; simpl; [done|].
  apply IH; [done|]. by apply add_transfer_ok.
Qed.

Lemma io_for_keeps {A S} (I : S -> Prop) (body : S -> A -> io S) xs :
  (forall x, In x xs -> keeps I (fun s => body s x)) ->
  keeps I (io_for xs body).
Proof.
  induction xs as [|x xs IH]; intros Hbody s w s' w' Hs H; simpl in H.
  - by injection H as <- <-.
  - unfold io_bind in H. destruct (body s x w) as [[s1 w1]|] eqn:E; [|done].
    eapply IH; [|exact (Hbody x (or_introl eq_refl) _ _ _ _ Hs E)|exact H].
    intros x' Hin. apply Hbody. by right.
Qed.

Lemma fetch_transfers_keeps ws we team :
  In team teams ->
  keeps transfers_ok (fun acc => fetch_transfers ws we acc team).
Proof.
  intros Hteam acc w acc' w' Hacc H. unfold fetch_transfers, io_bind in H.
  destruct (fetch_jira_data _ _ _ _ w) as [[resp w1]|]; [|done].
  injection H as <- <-. by apply foldl_add_transfer_ok.
Qed.

(** The transfers that the handler collects. *)
Lemma collect_transfers_ok fromisoformat ws we w m w' :
  collect fromisoformat ws we w = Some (m, w') ->
  transfers_ok (transfer_tickets m).
Proof.
  unfold collect, io_bind at 1.
  destruct (fetch_jira_data (new_tickets_jql ws we) _ _ _ w)
    as [[created w1]|]; [|done].
  destruct (process_new_tickets created) as [new incidents].
  unfold io_bind at 1.
  destruct (io_for _ fetch_resolved _ w1) as [[merged w2]|]; [|done].
  unfold io_bind at 1.
  destruct (fetch_jira_data (active_jql ws we) _ _ _ w2)
    as [[active w3]|]; [|done].
  unfold io_bind.
  destruct (io_for teams _ _ w3) as [[transfers w4]|] eqn:E; [|done].
  intros [= <- <-]. simpl.
  apply (io_for_keeps transfers_ok (fetch_transfers ws we) teams
           (fun team Hteam => fetch_transfers_keeps ws we team Hteam)
           [] w3 transfers w4); [split; constructor | exact E].
Qed.

Lemma foldl_add_transfer_grows team resp : forall acc,
  let out := foldl (add_transfer team) acc resp in
  acc `prefix_of` out /\
  forall t, In t out ->
    In t acc \/
    (tt_team t = team /\
     exists i, In i resp /\ tt_key t = key i /\
       is_se_transfer (default "" (summary (fields_of i)))
                      (default "" (description (fields_of i))) = true).
Proof.
  induction resp as [|i resp IH]; intros acc; simpl.
  - split; [done|]. intros t Ht. by left.
  - destruct (IH (add_transfer team acc i)) as [Hpre Hin].
    destruct (add_transfer_cases team acc i)
      as [E | (t0 & E & Hkey & Htt & Hnew & Hclass)]; rewrite E in *.
    + split; [done|]. intros t Ht. destruct (Hin t Ht) as [H | (H1 & i' & H2 & H3)].
      * by left.
      * right. split; [done|]. exists i'. split; [by right|done].
    + split; [etrans; [|exact Hpre]; by apply prefix_app_r|].
      intros t Ht. destruct (Hin t Ht) as [H | (H1 & i' & H2 & H3)].
      * apply in_app_iff in H as [H | [<- | []]]; [by left|].
        right. split; [done|]. exists i. split; [by left|done].
      * right. split; [done|]. exists i'. split; [by right|done].
Qed.

End TransferFacts.

(** X20.  The loop over the answer of one team only appends to the recorded
    transfers: what was recorded stays, in place; every ticket it adds is of
    that team and comes from an issue of the answer whose summary or
    description contains "SE-"; and no identifier is recorded twice. *)
Theorem transfer_loop_only_appends
    (team : string) (acc : list transfer_ticket) (resp : list issue) :
  let out := foldl (add_transfer team) acc resp in
  acc `prefix_of` out /\
  (List.NoDup (map tt_key acc) -> List.NoDup (map tt_key out)) /\
  forall t, In t out ->
    In t acc \/
    (tt_team t = team /\
     exists i, In i resp /\ tt_key t = key i /\
       is_se_transfer (default "" (summary (fields_of i)))
                      (default "" (description (fields_of i))) = true).
Proof.
  intros out. destruct (foldl_add_transfer_grows team resp acc) as [H1 H2].
  split; [exact H1|]. split; [|exact H2].
  intros Hnd. subst out. clear H1 H2. revert acc Hnd.
  induction resp as [|i resp IH]; intros acc Hnd; simpl; [done|].
  apply IH. destruct (add_transfer_cases team acc i)
    as [-> | (t & -> & Hkey & _ & Hnew & _)]; [done|].
  rewrite map_app. simpl. apply NoDup_snoc; [done|]. by rewrite Hkey.
Qed.

(** X21.  In every report the incidents are at most the new tickets, and the
    transfer details hold no identifier twice and teams of the fixed list
    only. *)
Theorem report_lists_are_consistent
    (fromisoformat : string -> option instant) (today : datetime)
    (w w' : world) (r : report) :
  get_metrics fromisoformat today w = Some (Success r, w') ->
  (incidentsCount r <= newTicketsCount r)%nat /\
  (length (transfers_details r) <= transfersCount r)%nat /\
  List.NoDup (map tt_key (transfers_details r)) /\
  Forall (fun t => In (tt_team t) teams) (transfers_details r).
Proof.
  intros H. apply get_metrics_success in H as (ws & we & m & _ & Hc & ->).
  pose proof (collect_transfers_ok _ _ _ _ _ _ Hc) as [Hnd Hteams].
  apply collect_lists in Hc
    as (created & w1 & resp1 & w2 & resp2 & w3 & _ & _ & _ & Hnew & Hinc & _).
  unfold build_report. simpl. rewrite Hinc.
  assert (Htake : take 5 (take 6 (transfer_tickets m))
                  = take 5 (transfer_tickets m)).
  { rewrite take_take. f_equal. }
  rewrite Htake.
  split; [apply List.filter_length_le|].
  split; [rewrite length_take; lia|].
  split.
  - rewrite <- (take_drop 5 (transfer_tickets m)), map_app in Hnd.
    by apply NoDup_app_remove_r in Hnd.
  - by apply Forall_take.
Qed.

Lemma report_lists_are_consistent_witness :
  (incidentsCount MoreExamples.scenario_report
   <= newTicketsCount MoreExamples.scenario_report)%nat /\
  (length (transfers_details MoreExamples.scenario_report)
   <= transfersCount MoreExamples.scenario_report)%nat /\
  List.NoDup (map tt_key (transfers_details MoreExamples.scenario_report)) /\
  Forall (fun t => In (tt_team t) teams)
         (transfers_details MoreExamples.scenario_report).
Proof.
  apply (report_lists_are_consistent sample_clock wednesday scenario
           MoreExamples.scenario_after MoreExamples.scenario_report).
  vm_compute. reflexivity.
Defined.
(** ** More on the texts *)

Section MoreTextFacts.

Lemma startswith_SE_before_space s b :
  startswith "SE-" (s +:+ " " +:+ b) = startswith "SE-" s.
Proof.
  destruct s as [|c1 [|c2 [|c3 s]]];
    rewrite ?append_cons, ?append_nil_l;
    change (" " +:+ b) with (String " " b); cbn [startswith];
    change (Ascii.eqb "S" " ") with false;
    change (Ascii.eqb "E" " ") with false;
    change (Ascii.eqb "-" " ") with false;
    repeat match goal with
           | |- context [Ascii.eqb ?a ?c] => is_var c; destruct (Ascii.eqb a c)
           end; reflexivity.
Qed.

(** "SE-" has no space, so it cannot straddle the space between summary and
    description. *)
Lemma contains_SE_around_space a b :
  contains "SE-" (a +:+ " " +:+ b) = contains "SE-" a || contains "SE-" b.
Proof.
  induction a as [|c a IH].
  - rewrite append_nil_l. change (" " +:+ b) with (String " " b). reflexivity.
  - rewrite append_cons.
    change (contains "SE-" (String c (a +:+ " " +:+ b)))
      with (startswith "SE-" (String c (a +:+ " " +:+ b))
            || contains "SE-" (a +:+ " " +:+ b)).
    change (contains "SE-" (String c a))
      with (startswith "SE-" (String c a) || contains "SE-" a).
    rewrite IH. rewrite <- append_cons, startswith_SE_before_space.
    by rewrite orb_assoc.
Qed.

Lemma first_se_key_contains m text :
  Spec.first_se_key m text -> contains "SE-" text = true.
Proof.
  intros (pre & (ds & post & -> & -> & _) & _).
  apply contains_iff. exists pre, (ds +:+ post). by rewrite !append_assoc.
Qed.

Lemma replace_Z_cons c s :
  replace_Z (String c s) =
  if Ascii.eqb c "Z" then "+00:00" +:+ replace_Z s else String c (replace_Z s).
Proof. reflexivity. Qed.

End MoreTextFacts.

(** X22.  The test that classifies a transfer looks at the summary and at
    the description, the search at their joined text: the two agree.  The
    summary or the description contains "SE-" exactly when the joined text
    does; so when the test fails, "SE-" stands nowhere in the joined text,
    and the test hides no key from the search. *)
Theorem transfer_guard_agrees_with_search (summary description : string) :
  is_se_transfer summary description
    = contains "SE-" (transfer_text summary description) /\
  (is_se_transfer summary description = false ->
   forall pre post,
     transfer_text summary description <> pre +:+ "SE-" +:+ post).
Proof.
  assert (H : is_se_transfer summary description
              = contains "SE-" (transfer_text summary description)).
  { unfold is_se_transfer, transfer_text. by rewrite contains_SE_around_space. }
  split; [exact H|]. intros Hno pre post Heq.
  assert (Hc : contains "SE-" (transfer_text summary description) = true).
  { apply contains_iff. by exists pre, post. }
  congruence.
Qed.

(** X23.  Every "Z" of a timestamp is replaced by "+00:00", wherever it
    stands, and a timestamp without "Z" is left as it is. *)
Theorem replace_Z_replaces_every_Z (s : string) :
  contains "Z" (replace_Z s) = false /\
  (contains "Z" s = false -> replace_Z s = s) /\
  replace_Z (s +:+ "Z") = replace_Z s +:+ "+00:00".
Proof.
  split; [|split].
  - induction s as [|c s IH]; [done|].
    rewrite replace_Z_cons. destruct (Ascii.eqb c "Z") eqn:E.
    + change ("+00:00" +:+ replace_Z s)
        with (String "+" (String "0" (String "0" (String ":"
                (String "0" (String "0" (replace_Z s))))))).
      simpl. exact IH.
    + change (contains "Z" (String c (replace_Z s)))
        with (startswith "Z" (String c (replace_Z s))
              || contains "Z" (replace_Z s)).
      rewrite IH. cbn [startswith]. rewrite Ascii.eqb_sym, E. done.
  - induction s as [|c s IH]; [done|]. intros H.
    change (contains "Z" (String c s))
      with (startswith "Z" (String c s) || contains "Z" s) in H.
    apply orb_false_iff in H as [H1 H2]. cbn [startswith] in H1.
    rewrite replace_Z_cons, Ascii.eqb_sym.
    destruct (Ascii.eqb "Z" c); [done|]. by rewrite IH.
  - induction s as [|c s IH]; [done|].
    rewrite append_cons, !replace_Z_cons.
    destruct (Ascii.eqb c "Z").
    + by rewrite IH, append_assoc.
    + by rewrite IH.
Qed.
(** ** The count of resolved tickets *)

(** X24.  The merged list has as many issues as the two answers have
    distinct identifiers: this is what [resolvedTicketsCount] counts. *)
Theorem merged_count_is_distinct_identifiers (resp1 resp2 : list issue) :
  length (merge_resolved resp1 resp2) =
  size (list_to_set (map key (resp1 ++ resp2)) : gset string).
Proof.
  destruct (merge_has_each_identifier_once_aux resp1 resp2) as (Hnd & Hkeys).
  apply NoDup_ListNoDup in Hnd.
  rewrite <- (length_map key (merge_resolved resp1 resp2)).
  rewrite <- (size_list_to_set (C := gset string)) by done.
  f_equal. apply set_eq. intros k.
  rewrite !elem_of_list_to_set, !list_elem_of_In. apply Hkeys.
Qed.
